(** * MediTrack: the client services and screens around the drug
      interaction check, and the interaction engine they call.

    The web client ([services/api.js], [services/authService.js],
    [services/aiService.js], [services/drugInteractionService.js], the
    prescription checker screen)
    and the mobile client ([home-tab/Home.js], [home-tab/AddManually.js],
    the confirmation modal) are embedded function by function.  The
    interaction engine itself (resolver, curated store, classifier, cache)
    is not part of the JavaScript sources; module [Engine] models it from
    its specification and says so on every definition. *)

From Stdlib Require Import List String Ascii Bool Arith ZArith QArith Lia.
From Stdlib Require Import DecimalString.
Import ListNotations.
Close Scope Q_scope.
Open Scope string_scope.
Set Warnings "-register-all".

(* ================================================================== *)
(** ** JavaScript strings and arrays *)
(* ================================================================== *)

Module JS.

(** A JavaScript string is taken as the sequence of its UTF-8 bytes.
    [String.prototype.toLowerCase] is modelled on the ASCII range:
    'A'..'Z' (65..90) move to 'a'..'z', every other byte stays. Outside
    ASCII JavaScript lowers more characters; only two of them give an
    ASCII letter: U+212A (to 'k') and U+0130 (to 'i' followed by a
    combining dot above). The web services use this function, and only
    to compare its result with ASCII literals (severity names, keywords,
    the hard-coded medication names). The mobile screens lower and trim
    the names the user typed; there [toLowerCase] and [trim] are taken
    as given (module [Home]). *)
Definition lowerChar (c : ascii) : ascii :=
  let n := nat_of_ascii c in
  if ((65 <=? n) && (n <=? 90))%nat then ascii_of_nat (n + 32) else c.

Fixpoint toLowerCase (s : string) : string :=
  match s with
  | EmptyString => EmptyString
  | String c s' => String (lowerChar c) (toLowerCase s')
  end.

(** [s.startsWith(t)]. *)
Fixpoint startsWith (s t : string) {struct t} : bool :=
  match t, s with
  | EmptyString, _ => true
  | String _ _, EmptyString => false
  | String b t', String a s' => Ascii.eqb a b && startsWith s' t'
  end.

(** [s.includes(t)]: [t] occurs in [s] at some position. A search for
    an ASCII text among UTF-8 bytes finds what the search among UTF-16
    code units finds. *)
Fixpoint includes (s t : string) : bool :=
  if startsWith s t then true
  else match s with
       | EmptyString => false
       | String _ s' => includes s' t
       end.

(** [arr.includes(x)] on an array of strings. *)
Definition arrayIncludes (arr : list string) (x : string) : bool :=
  existsb (String.eqb x) arr.

(** Truthiness of a string: every string but the empty one. *)
Definition truthy (s : string) : bool :=
  match s with EmptyString => false | _ => true end.

(** A non-negative integer inside a template literal: [`${n}`]. *)
Definition showNat (n : nat) : string :=
  NilZero.string_of_uint (Nat.to_uint n).

(** The characters [encodeURIComponent] leaves as they are: letters,
    digits and [- _ . ! ~ * ' ( )]. *)
Definition unreserved (c : ascii) : bool :=
  let n := nat_of_ascii c in
  (((65 <=? n) && (n <=? 90)) || ((97 <=? n) && (n <=? 122))
   || ((48 <=? n) && (n <=? 57)))%nat
  || existsb (Ascii.eqb c)
       ["-"; "_"; "."; "!"; "~"; "*"; "'"; "("; ")"]%char.

(** One hexadecimal digit, in upper case. *)
Definition hexDigit (n : nat) : ascii :=
  if (n <? 10)%nat then ascii_of_nat (48 + n) else ascii_of_nat (55 + n).

(** [encodeURIComponent(s)]: every other character is written as the
    bytes of its UTF-8 encoding, each as [%] and two hexadecimal digits;
    a string is its UTF-8 bytes here. (A lone surrogate, on which
    JavaScript throws a URIError, has no UTF-8 encoding.) *)
Fixpoint encodeURIComponent (s : string) : string :=
  match s with
  | EmptyString => EmptyString
  | String c rest =>
      if unreserved c then String c (encodeURIComponent rest)
      else
        let n := nat_of_ascii c in
        String "%" (String (hexDigit (n / 16))
                           (String (hexDigit (n mod 16))
                                   (encodeURIComponent rest)))
  end.

End JS.

(* ================================================================== *)
(** ** services/aiService.js *)
(* ================================================================== *)

Module AIService.

(** The eight names. None has a 'k' and none ends in 'i', so the two
    characters that lower into ASCII cannot complete an occurrence of a
    name: on these names the ASCII [toLowerCase] finds what JavaScript's
    finds. *)
Definition commonMedications : list string :=
  [ "paracetamol"; "ibuprofen"; "aspirin"; "clopidogrel";
    "metformin"; "lisinopril"; "atorvastatin"; "amlodipine" ].

(** One turn of the [forEach] callback: [foundMedications.push(med)]
    when the lower-cased message includes [med]. *)
Definition pushIfFound (lowerMessage : string)
    (foundMedications : list string) (med : string) : list string :=
  if JS.includes lowerMessage med
  then foundMedications ++ [med]
  else foundMedications.

(** [extractMedicationsFromMessage(message)]. *)
Definition extractMedicationsFromMessage (message : string) : list string :=
  let foundMedications := [] in
  let lowerMessage := JS.toLowerCase message in
  fold_left (pushIfFound lowerMessage) commonMedications foundMedications.

Definition medicationKeywords : list string :=
  [ "medication"; "medicine"; "drug"; "pill"; "tablet";
    "interaction"; "side effect"; "dosage"; "prescription" ].

(** [isMedicationQuery(message)]. *)
Definition isMedicationQuery (message : string) : bool :=
  existsb (fun keyword => JS.includes (JS.toLowerCase message) keyword)
          medicationKeywords.

End AIService.

(* ================================================================== *)
(** ** Results of asynchronous calls *)
(* ================================================================== *)

(** What a rejected promise carries: the error's constructor and its
    [message]. *)
Inductive ErrorKind := PlainError | SyntaxError | TypeError.

Record Exception := { kind : ErrorKind; message : string }.

(** An awaited call either returns a value or throws. *)
Inductive Outcome (A : Type) : Type :=
| Returns (a : A)
| Throws (e : Exception).

Arguments Returns {A} a.
Arguments Throws {A} e.

Definition bind {A B : Type} (m : Outcome A) (k : A -> Outcome B) : Outcome B :=
  match m with
  | Returns a => k a
  | Throws e => Throws e
  end.

Notation "'await' x <- m ; k" := (bind m (fun x => k))
  (at level 61, x name, m at next level, right associativity).

(** [new Error(text)]. *)
Definition newError (text : string) : Exception :=
  {| kind := PlainError; message := text |}.

(** The services' [try { return await call } catch (error) { throw new
    Error(error.message || fallback) }]. *)
Definition rethrowWithFallback {A : Type} (fallback : string)
    (m : Outcome A) : Outcome A :=
  match m with
  | Returns a => Returns a
  | Throws e =>
      Throws (newError (if JS.truthy (message e) then message e else fallback))
  end.

(* ================================================================== *)
(** ** services/api.js *)
(* ================================================================== *)

Module ApiService.

Section Request.

(** JavaScript numbers are IEEE doubles; [request] only asks whether one
    is truthy and how it prints, so both are taken as given. *)
Variable number : Type.
Variable numberTruthy : number -> bool.
Variable numberToString : number -> string.

(** A value produced by [response.json()]. An object is the list of its
    own properties, one entry per key. *)
Inductive JSON : Type :=
| JNull
| JBool (b : bool)
| JNumber (n : number)
| JString (s : string)
| JArray (items : list JSON)
| JObject (props : list (string * JSON)).

Fixpoint lookupProp (key : string) (props : list (string * JSON)) : option JSON :=
  match props with
  | [] => None
  | (k, v) :: rest => if String.eqb k key then Some v else lookupProp key rest
  end.

(** [error.detail]: the property of an object, [undefined] ([None]) on
    any other value that has properties, and a TypeError on [null]. *)
Definition getDetail (error : JSON) : Outcome (option JSON) :=
  match error with
  | JNull =>
      (* the text is V8's *)
      Throws {| kind := TypeError;
                message := "Cannot read properties of null (reading 'detail')" |}
  | JObject props => Returns (lookupProp "detail" props)
  | _ => Returns None
  end.

(** Truthiness of a parsed value. *)
Definition jsonTruthy (v : JSON) : bool :=
  match v with
  | JNull => false
  | JBool b => b
  | JNumber n => numberTruthy n
  | JString s => JS.truthy s
  | JArray _ | JObject _ => true
  end.

Fixpoint join (sep : string) (parts : list string) : string :=
  match parts with
  | [] => ""
  | [x] => x
  | x :: rest => x ++ sep ++ join sep rest
  end.

(** The results of a list of conversions made one after the other: the
    first that throws ends them. *)
Fixpoint sequence (parts : list (Outcome string)) : Outcome (list string) :=
  match parts with
  | [] => Returns []
  | part :: rest =>
      await x <- part;
      await xs <- sequence rest;
      Returns (x :: xs)
  end.

(** [String(v)], which [new Error(v)], a template literal and
    [localStorage.setItem] apply to a value: an array joins the strings
    of its elements with commas ([null] prints as nothing there). An
    object without an own [toString] property prints as
    [[object Object]]; with one (a parsed value is never callable) the
    conversion finds no method that gives a primitive and throws a
    TypeError (the text is V8's). *)
Fixpoint jsonToString (v : JSON) : Outcome string :=
  match v with
  | JNull => Returns "null"
  | JBool true => Returns "true"
  | JBool false => Returns "false"
  | JNumber n => Returns (numberToString n)
  | JString s => Returns s
  | JArray items =>
      await parts <-
        sequence
          (map (fun x => match x with
                         | JNull => Returns ""
                         | _ => jsonToString x
                         end) items);
      Returns (join "," parts)
  | JObject props =>
      match lookupProp "toString" props with
      | Some _ =>
          Throws {| kind := TypeError;
                    message := "Cannot convert object to primitive value" |}
      | None => Returns "[object Object]"
      end
  end.

(** What [request] sees of the response to [fetch]: the [ok] flag, the
    status code and what [response.json()] resolves to or rejects with. *)
Record Response := {
  ok : bool;
  status : nat;
  json : Outcome JSON
}.

(** [error.detail || `HTTP error! status: ${response.status}`], as the
    text [new Error] keeps; converting a [detail] that is no string may
    throw. *)
Definition errorText (detail : option JSON) (response : Response)
  : Outcome string :=
  match detail with
  | Some d =>
      if jsonTruthy d then jsonToString d
      else Returns ("HTTP error! status: " ++ JS.showNat (status response))
  | None => Returns ("HTTP error! status: " ++ JS.showNat (status response))
  end.

(** [request(endpoint, options)] once [fetch] has settled. The outer
    [catch] logs and rethrows the same error, so every [Throws] below
    leaves [request] unchanged. *)
Definition request (fetched : Outcome Response) : Outcome JSON :=
  await response <- fetched;
  if negb (ok response) then
    let error :=
      match json response with
      | Returns body => body
      | Throws _ => JObject [("detail", JString "Request failed")]
      end in
    await detail <- getDetail error;
    await text <- errorText detail response;
    Throws (newError text)
  else
    json response.

End Request.

Arguments JNull {number}.
Arguments JBool {number} b.
Arguments JNumber {number} n.
Arguments JString {number} s.
Arguments JArray {number} items.
Arguments JObject {number} props.
Arguments ok {number} r.
Arguments status {number} r.
Arguments json {number} r.
Arguments lookupProp {number} key props.
Arguments getDetail {number} error.
Arguments jsonTruthy {number} numberTruthy v.
Arguments jsonToString {number} numberToString v.
Arguments errorText {number} numberTruthy numberToString detail response.
Arguments request {number} numberTruthy numberToString fetched.

End ApiService.

(* ================================================================== *)
(** ** services/drugInteractionService.js *)
(* ================================================================== *)

Module DrugInteractionService.

(** One entry of [response.interactions], with the fields the screens
    read; [severity] may be missing. *)
Record Interaction := {
  drug1 : string;
  drug2 : string;
  severity : option string;
  description : string
}.

(** [i.severity?.toLowerCase()]. *)
Definition severityLower (i : Interaction) : option string :=
  option_map JS.toLowerCase (severity i).

(** [interaction.severity?.toLowerCase() || 'low']. *)
Definition severityOrLow (i : Interaction) : string :=
  match severityLower i with
  | Some s => if JS.truthy s then s else "low"
  | None => "low"
  end.

(** [getRiskLevel(interactions)]; [None] is a missing list. *)
Definition getRiskLevel (interactions : option (list Interaction)) : string :=
  match interactions with
  | None => "low"
  | Some l =>
      if (List.length l =? 0)%nat then "low"
      else
        let severities := map severityOrLow l in
        if JS.arrayIncludes severities "high" || JS.arrayIncludes severities "severe"
        then "high"
        else if JS.arrayIncludes severities "moderate"
                || JS.arrayIncludes severities "medium"
        then "medium"
        else "low"
  end.

(** [names.includes(i.severity?.toLowerCase())]: [undefined] is in no
    array of strings. *)
Definition severityIn (names : list string) (i : Interaction) : bool :=
  match severityLower i with
  | Some s => JS.arrayIncludes names s
  | None => false
  end.

Definition highRisk (l : list Interaction) : list Interaction :=
  filter (severityIn ["high"; "severe"]) l.

Definition mediumRisk (l : list Interaction) : list Interaction :=
  filter (severityIn ["moderate"; "medium"]) l.

Definition highRiskText (n : nat) : string :=
  "⚠️ " ++ JS.showNat n ++ " high-risk interaction(s) detected. ".

Definition mediumRiskText (n : nat) : string :=
  "⚡ " ++ JS.showNat n ++ " moderate-risk interaction(s) found. ".

(** [formatInteractionMessage(interactions)]. *)
Definition formatInteractionMessage (interactions : option (list Interaction)) : string :=
  match interactions with
  | None => "No significant drug interactions found."
  | Some l =>
      if (List.length l =? 0)%nat then "No significant drug interactions found."
      else
        let message := "" in
        let message :=
          if (0 <? List.length (highRisk l))%nat
          then message ++ highRiskText (List.length (highRisk l)) else message in
        let message :=
          if (0 <? List.length (mediumRisk l))%nat
          then message ++ mediumRiskText (List.length (mediumRisk l)) else message in
        if JS.truthy message then message
        else "Some interactions detected. Please review carefully."
  end.

(** [getRiskColor(riskLevel)]. *)
Definition getRiskColor (riskLevel : option string) : string :=
  match option_map JS.toLowerCase riskLevel with
  | Some "high" | Some "severe" => "#ff4444"
  | Some "medium" | Some "moderate" => "#ff8800"
  | Some "low" | Some "minor" => "#44ff44"
  | _ => "#cccccc"
  end.

(** What [/api/interactions/check] answers, as far as the screen reads. *)
Record CheckResponse := { interactions : option (list Interaction) }.

(** [checkInteractions], [getSpecificInteraction] and
    [batchCheckInteractions] around what [apiService] answered: the
    response is handed on as it is, and any error becomes one [Error]
    for the whole call. *)
Definition checkInteractions {A : Type} (posted : Outcome A) : Outcome A :=
  rethrowWithFallback "Failed to check drug interactions" posted.

Definition getSpecificInteraction {A : Type} (got : Outcome A) : Outcome A :=
  rethrowWithFallback "Failed to get specific interaction" got.

Definition batchCheckInteractions {A : Type} (posted : Outcome A) : Outcome A :=
  rethrowWithFallback "Failed to batch check interactions" posted.

(** The path [getSpecificInteraction(drug1, drug2)] requests, the two
    names already URI-encoded: the caller's order is kept. *)
Definition specificInteractionPath (encoded1 encoded2 : string) : string :=
  "/api/interactions/" ++ encoded1 ++ "/" ++ encoded2.

(** The endpoint of [getSpecificInteraction(drug1, drug2)]. *)
Definition getSpecificInteractionEndpoint (drug1 drug2 : string) : string :=
  specificInteractionPath (JS.encodeURIComponent drug1)
                          (JS.encodeURIComponent drug2).

End DrugInteractionService.

(* ================================================================== *)
(** ** services/aiService.js: the chat helper and its request *)
(* ================================================================== *)

Module AIServiceChat.

(** The body posted to [/api/ai/custom-prompt]. *)
Record CustomPrompt := {
  medications : list string;
  custom_prompt : string;
  include_context : bool
}.

(** [generateCustomExplanation(medications, customPrompt, includeContext)],
    over what [apiService.post] does with an endpoint and a body. *)
Definition generateCustomExplanation {A : Type}
    (post : string -> CustomPrompt -> Outcome A)
    (meds : list string) (customPrompt : string) (includeContext : bool)
  : Outcome A :=
  rethrowWithFallback "Failed to generate custom explanation"
    (post "/api/ai/custom-prompt"
          {| medications := meds; custom_prompt := customPrompt;
             include_context := includeContext |}).

(** [chatInteraction(message)]. *)
Definition chatInteraction {A : Type}
    (post : string -> CustomPrompt -> Outcome A) (message : string)
  : Outcome A :=
  rethrowWithFallback "Chat interaction failed"
    (if AIService.isMedicationQuery message then
       let medications := AIService.extractMedicationsFromMessage message in
       generateCustomExplanation post medications message true
     else
       generateCustomExplanation post [] message true).

(** [getRiskLevelColor(riskLevel)]. *)
Definition getRiskLevelColor (riskLevel : option string) : string :=
  match option_map JS.toLowerCase riskLevel with
  | Some "high" => "#ff4444"
  | Some "medium" => "#ff8800"
  | Some "low" => "#44ff44"
  | _ => "#cccccc"
  end.

End AIServiceChat.

(* ================================================================== *)
(** ** layouts/prescription-checker: the web screen *)
(* ================================================================== *)

Module PrescriptionChecker.

Record DrugOption := { value : string; label : string }.

Record Toast := { toastMessage : string; toastType : string }.

Record AiResponse := { explanation : string }.

(** The component's state, one field per [useState] the handler writes. *)
Record State := {
  drugs : list (option DrugOption);
  alert : string;
  isLoading : bool;
  interactions : list DrugInteractionService.Interaction;
  aiExplanation : string;
  toast : option Toast
}.

(** The two service methods [handleCheck] awaits. *)
Record Services := {
  checkInteractions :
    list string -> Outcome DrugInteractionService.CheckResponse;
  explainMedicationRisks : list string -> Outcome AiResponse
}.

Inductive Call :=
| CheckInteractions (medications : list string)
| ExplainMedicationRisks (medications : list string).

Definition setToast (t : option Toast) (st : State) : State :=
  {| drugs := drugs st; alert := alert st; isLoading := isLoading st;
     interactions := interactions st; aiExplanation := aiExplanation st;
     toast := t |}.

Definition setAlert (a : string) (st : State) : State :=
  {| drugs := drugs st; alert := a; isLoading := isLoading st;
     interactions := interactions st; aiExplanation := aiExplanation st;
     toast := toast st |}.

Definition setIsLoading (b : bool) (st : State) : State :=
  {| drugs := drugs st; alert := alert st; isLoading := b;
     interactions := interactions st; aiExplanation := aiExplanation st;
     toast := toast st |}.

Definition setInteractions (l : list DrugInteractionService.Interaction)
    (st : State) : State :=
  {| drugs := drugs st; alert := alert st; isLoading := isLoading st;
     interactions := l; aiExplanation := aiExplanation st;
     toast := toast st |}.

Definition setAiExplanation (e : string) (st : State) : State :=
  {| drugs := drugs st; alert := alert st; isLoading := isLoading st;
     interactions := interactions st; aiExplanation := e;
     toast := toast st |}.

(** [drugs.filter(drug => drug?.value).map(drug => drug.value)]. *)
Definition selectedDrugs (st : State) : list string :=
  map (fun drug => match drug with Some o => value o | None => "" end)
      (filter (fun drug => match drug with
                           | Some o => JS.truthy (value o)
                           | None => false
                           end)
              (drugs st)).

Definition tooFewWarning : Toast :=
  {| toastMessage := "Please select at least 2 medications to check interactions";
     toastType := "warning" |}.

(** [interactionResponse.interactions?.length || 0]. *)
Definition foundCount (r : DrugInteractionService.CheckResponse) : nat :=
  match DrugInteractionService.interactions r with
  | Some l => List.length l
  | None => 0
  end.

Definition completeToast (r : DrugInteractionService.CheckResponse) : Toast :=
  let riskLevel :=
    DrugInteractionService.getRiskLevel (DrugInteractionService.interactions r) in
  {| toastMessage :=
       "Analysis complete! Found " ++ JS.showNat (foundCount r) ++ " interactions.";
     toastType :=
       if String.eqb riskLevel "high" then "error"
       else if String.eqb riskLevel "medium" then "warning"
       else "success" |}.

(** The body of [try]: the state it reached, the calls it made, and the
    error it stopped at, if any. *)
Definition tryCheck (svc : Services) (selected : list string) (st : State)
  : State * list Call * option Exception :=
  match checkInteractions svc selected with
  | Throws error => (st, [CheckInteractions selected], Some error)
  | Returns interactionResponse =>
      let st :=
        setInteractions
          (match DrugInteractionService.interactions interactionResponse with
           | Some l => l
           | None => []
           end) st in
      match explainMedicationRisks svc selected with
      | Throws error =>
          (st, [CheckInteractions selected; ExplainMedicationRisks selected],
           Some error)
      | Returns aiResponse =>
          let st := setAiExplanation (explanation aiResponse) st in
          let riskMessage :=
            DrugInteractionService.formatInteractionMessage
              (DrugInteractionService.interactions interactionResponse) in
          let st := setAlert riskMessage st in
          let st := setToast (Some (completeToast interactionResponse)) st in
          (st, [CheckInteractions selected; ExplainMedicationRisks selected], None)
      end
  end.

(** [handleCheck()]: the state after the handler has run and the service
    calls it made, in order. *)
Definition handleCheck (svc : Services) (st : State) : State * list Call :=
  let selected := selectedDrugs st in
  if (List.length selected <? 2)%nat then
    (setToast (Some tooFewWarning) st, [])
  else
    let st := setIsLoading true st in
    let st := setAlert "" st in
    let st := setInteractions [] st in
    let st := setAiExplanation "" st in
    let '(st, calls, thrown) := tryCheck svc selected st in
    let st :=
      match thrown with
      | Some error =>
          setToast (Some {| toastMessage := message error; toastType := "error" |})
                   (setAlert "Failed to check interactions. Please try again." st)
      | None => st
      end in
    (setIsLoading false st, calls).

(** [next[idx] = sel] on a copy of the array: inside the array the
    element is replaced; past its end the array grows, and the places in
    between are holes, which read as [undefined]. *)
Definition assignAt {A : Type} (idx : nat) (sel : option A)
    (arr : list (option A)) : list (option A) :=
  if (idx <? List.length arr)%nat
  then firstn idx arr ++ sel :: skipn (S idx) arr
  else arr ++ repeat None (idx - List.length arr) ++ [sel].

(** [arr.filter((x, i) => keep(x, i))], the index counted from [i]. *)
Fixpoint filterWithIndex {A : Type} (keep : A -> nat -> bool) (i : nat)
    (arr : list A) : list A :=
  match arr with
  | [] => []
  | x :: rest =>
      if keep x i then x :: filterWithIndex keep (S i) rest
      else filterWithIndex keep (S i) rest
  end.

(** [handleDrugChange(idx, sel)], as the new value of [drugs]. *)
Definition handleDrugChange (idx : nat) (sel : option DrugOption)
    (drugs : list (option DrugOption)) : list (option DrugOption) :=
  let next := drugs in
  assignAt idx sel next.

(** [handleCreateDrug(idx, inputValue)], as the new value of [drugs]. *)
Definition handleCreateDrug (idx : nat) (inputValue : string)
    (drugs : list (option DrugOption)) : list (option DrugOption) :=
  let newOpt := {| value := inputValue; label := inputValue |} in
  handleDrugChange idx (Some newOpt) drugs.

(** [addDrugField()]. *)
Definition addDrugField (drugs : list (option DrugOption))
  : list (option DrugOption) :=
  drugs ++ [None].

(** [removeDrugAt(idx)]. *)
Definition removeDrugAt (idx : nat) (drugs : list (option DrugOption))
  : list (option DrugOption) :=
  if (1 <? List.length drugs)%nat
  then filterWithIndex (fun _ i => negb (i =? idx)%nat) 0 drugs
  else drugs.

(** What the user does to the list of fields. *)
Inductive FieldAction :=
| Change (idx : nat) (sel : option DrugOption)
| Create (idx : nat) (inputValue : string)
| AddField
| RemoveAt (idx : nat).

Definition applyAction (drugs : list (option DrugOption)) (a : FieldAction)
  : list (option DrugOption) :=
  match a with
  | Change idx sel => handleDrugChange idx sel drugs
  | Create idx inputValue => handleCreateDrug idx inputValue drugs
  | AddField => addDrugField drugs
  | RemoveAt idx => removeDrugAt idx drugs
  end.

Definition setDrugs (l : list (option DrugOption)) (st : State) : State :=
  {| drugs := l; alert := alert st; isLoading := isLoading st;
     interactions := interactions st; aiExplanation := aiExplanation st;
     toast := toast st |}.

End PrescriptionChecker.

(* ================================================================== *)
(** ** home-tab: the mobile screens *)
(* ================================================================== *)

Module Home.

(** An element of a medication array: a string, an object that may carry
    a [name], or [null]/[undefined]. *)
Inductive MedInput :=
| MedString (s : string)
| MedObject (name : option string)
| MedNullish.

(** [typeof x === "string" ? x : x?.name || ""]. *)
Definition nameOf (x : MedInput) : string :=
  match x with
  | MedString s => s
  | MedObject (Some n) => if JS.truthy n then n else ""
  | MedObject None => ""
  | MedNullish => ""
  end.

(** A JavaScript [Map] from strings to strings: its entries in insertion
    order, one per key. *)
Definition JSMap := list (string * string).

(** [map.set(k, v)]: a key already present keeps its place and takes the
    new value; a new key goes last. *)
Fixpoint mapSet (m : JSMap) (k v : string) : JSMap :=
  match m with
  | [] => [(k, v)]
  | (k', v') :: rest =>
      if String.eqb k' k then (k', v) :: rest
      else (k', v') :: mapSet rest k v
  end.

(** [new Map(entries)]. *)
Definition newMap (entries : list (string * string)) : JSMap :=
  fold_left (fun m e => mapSet m (fst e) (snd e)) entries [].

(** [[...map.values()]]. *)
Definition values (m : JSMap) : list string := map snd m.

Section Names.

(** [String.prototype.toLowerCase] and [String.prototype.trim] work on
    all of Unicode (letters outside ASCII, white space such as U+00A0);
    the screens use them on names the user types, so they are taken as
    given. *)
Variable toLowerCase : string -> string.
Variable trim : string -> string.

(** The first three steps of both pipelines: the name of each element,
    trimmed, and empty strings dropped. *)
Definition cleaned (arr : list MedInput) : list string :=
  filter JS.truthy
    (map (fun s => trim (if JS.truthy s then s else ""))
         (map nameOf arr)).

(** [normalizeNames(arr)]; [None] is an argument that is no array. *)
Definition normalizeNames (arr : option (list MedInput)) : list string :=
  values
    (newMap
       (map (fun v => (toLowerCase v, v))
            (cleaned (match arr with Some a => a | None => [] end)))).

(** [medsToUse] of the confirmation modal, from its [medications] prop. *)
Definition medsToUse (medications : option (list MedInput)) : list string :=
  let arr := match medications with Some a => a | None => [] end in
  values (newMap (map (fun v => (toLowerCase v, v)) (cleaned arr))).

(** The [medications] that [fetchInteractionData] posts to
    [/api/interactions/check]; [None] when it returns without a request. *)
Definition fetchInteractionData (medications : option (list MedInput))
  : option (list string) :=
  match medsToUse medications with
  | [] => None
  | meds => Some meds
  end.

(** [AddManually.handleCheck]: the list handed to [onSubmit]. *)
Definition addManuallyHandleCheck (inputs : list string) : list string :=
  filter (fun name => negb (String.eqb (trim name) "")) inputs.

(** [_handleAddManually(manualMeds)], given the list that
    [fetchSavedMedicationNames] resolved to: the value of [merged], which
    becomes the [medications] of the confirmation modal. *)
Definition _handleAddManually (manualMeds : option (list MedInput))
    (historyList : list string) : list string :=
  let manualList := normalizeNames manualMeds in
  let merged :=
    normalizeNames
      (Some (map MedString manualList ++ map MedString historyList)%list) in
  merged.

End Names.

(** A reminder card of the home screen. *)
Record Reminder := {
  id : nat;
  name : string;
  time : string;
  takenTime : string;
  icon : string;
  taken : bool
}.

(** [{ ...reminder, taken: !reminder.taken }]. *)
Definition toggled (reminder : Reminder) : Reminder :=
  {| id := id reminder; name := name reminder; time := time reminder;
     takenTime := takenTime reminder; icon := icon reminder;
     taken := negb (taken reminder) |}.

(** [_handleTaken(id)], as the new value of [reminders]. *)
Definition _handleTaken (i : nat) (reminders : list Reminder) : list Reminder :=
  map (fun reminder => if (id reminder =? i)%nat then toggled reminder else reminder)
      reminders.

End Home.

(* ================================================================== *)
(** ** services/api.js and services/authService.js: the session *)
(* ================================================================== *)

Module AuthService.

Section Session.

Variable number : Type.
Variable numberTruthy : number -> bool.
Variable numberToString : number -> string.

(** [JSON.stringify] and [JSON.parse] are taken as given. *)
Variable stringify : ApiService.JSON number -> string.
Variable parse : string -> Outcome (ApiService.JSON number).

Local Abbreviation JSON := (ApiService.JSON number).
Local Abbreviation jsonTruthy := (ApiService.jsonTruthy numberTruthy).
Local Abbreviation jsonToString := (ApiService.jsonToString numberToString).

(** [localStorage]: string keys, string values, one entry per key. *)
Definition Storage : Type := list (string * string).

Fixpoint getItem (key : string) (storage : Storage) : option string :=
  match storage with
  | [] => None
  | (k, v) :: rest => if String.eqb k key then Some v else getItem key rest
  end.

Definition removeItem (key : string) (storage : Storage) : Storage :=
  filter (fun e => negb (String.eqb (fst e) key)) storage.

Definition setItem (key value : string) (storage : Storage) : Storage :=
  (key, value) :: removeItem key storage.

(** What [fetch] was called with: the [method], the endpoint (after
    [baseURL]), the [headers] and the [body]. *)
Record Sent := {
  method : string;
  endpoint : string;
  headers : list (string * string);
  body : option string
}.

(** The state the two services share: [apiService.token] ([JNull] is
    [null]), the browser's [localStorage], and the requests sent so far,
    oldest first. *)
Record World := {
  token : JSON;
  localStorage : Storage;
  sent : list Sent
}.

(** [new ApiService()]: the token is read from [localStorage]. *)
Definition newApiService (storage : Storage) : World :=
  {| token := match getItem "auth_token" storage with
              | Some t => ApiService.JString t
              | None => ApiService.JNull
              end;
     localStorage := storage;
     sent := [] |}.

(** [setToken(token)]: the token is assigned first; [setItem] then
    converts a truthy one to a string, and when that throws the storage
    is left as it was. *)
Definition setToken (t : JSON) (w : World) : Outcome unit * World :=
  if jsonTruthy t then
    match jsonToString t with
    | Returns text =>
        (Returns tt,
         {| token := t;
            localStorage := setItem "auth_token" text (localStorage w);
            sent := sent w |})
    | Throws e =>
        (Throws e,
         {| token := t; localStorage := localStorage w; sent := sent w |})
    end
  else
    (Returns tt,
     {| token := t;
        localStorage := removeItem "auth_token" (localStorage w);
        sent := sent w |}).

(** [getHeaders(includeAuth)]; the template literal converts the token
    to a string, which may throw. *)
Definition getHeaders (includeAuth : bool) (w : World)
  : Outcome (list (string * string)) :=
  if includeAuth && jsonTruthy (token w) then
    await text <- jsonToString (token w);
    Returns [("Content-Type", "application/json");
             ("Authorization", "Bearer " ++ text)]
  else Returns [("Content-Type", "application/json")].

(** [request(endpoint, options)] with [options] of [get], [post], [put]
    and [delete]. The headers are built before the [try]: when
    [getHeaders] throws, [request] throws the same and [fetch] is not
    called. Otherwise the request is recorded with the headers of the
    moment, and the result is [ApiService.request] of what [fetch]
    settled to. *)
Definition request (method endpoint : string) (body : option string)
    (includeAuth : bool) (fetched : Outcome (ApiService.Response number))
    (w : World) : Outcome JSON * World :=
  match getHeaders includeAuth w with
  | Throws e => (Throws e, w)
  | Returns hs =>
      (ApiService.request numberTruthy numberToString fetched,
       {| token := token w;
          localStorage := localStorage w;
          sent := (sent w ++ [ {| method := method; endpoint := endpoint;
                                  headers := hs;
                                  body := body |} ])%list |})
  end.

Definition get (endpoint : string) (includeAuth : bool) :=
  request "GET" endpoint None includeAuth.

Definition post (endpoint : string) (data : JSON) (includeAuth : bool) :=
  request "POST" endpoint (Some (stringify data)) includeAuth.

Definition put (endpoint : string) (data : JSON) (includeAuth : bool) :=
  request "PUT" endpoint (Some (stringify data)) includeAuth.

Definition delete (endpoint : string) (includeAuth : bool) :=
  request "DELETE" endpoint None includeAuth.

(** [v.key] for a [v] that is not [null]; [None] is [undefined]. The
    keys read here are no properties of strings, arrays, numbers or
    booleans. *)
Definition prop (key : string) (v : JSON) : option JSON :=
  match v with
  | ApiService.JObject props => ApiService.lookupProp key props
  | _ => None
  end.

(** [v?.key]. *)
Definition optProp (key : string) (v : option JSON) : option JSON :=
  match v with
  | None | Some ApiService.JNull => None
  | Some x => prop key x
  end.

(** A property of an object literal; [JSON.stringify] leaves out a
    property whose value is [undefined]. *)
Definition field (key : string) (v : option JSON) : list (string * JSON) :=
  match v with
  | Some x => [(key, x)]
  | None => []
  end.

(** [clearUserData()]; [setToken(null)] does not throw. *)
Definition clearUserData (w : World) : World :=
  snd (setToken ApiService.JNull
         {| token := token w;
            localStorage :=
              removeItem "user_data" (removeItem "auth_token" (localStorage w));
            sent := sent w |}).

(** [signUp(userData)]. *)
Definition signUp (userData : JSON)
    (fetched : Outcome (ApiService.Response number)) (w : World)
  : Outcome JSON * World :=
  let (response, w1) := post "/api/auth/signup" userData false fetched w in
  (rethrowWithFallback "Sign up failed" response, w1).

(** [signIn(email, password)]. Reading [response.session] of a [null]
    response is a TypeError, and [setToken] may throw one; the [catch]
    turns either into an Error. When [setToken] throws, the token is
    already assigned and nothing is stored. *)
Definition signIn (email password : string)
    (fetched : Outcome (ApiService.Response number)) (w : World)
  : Outcome JSON * World :=
  let (posted, w1) :=
    post "/api/auth/signin"
         (ApiService.JObject [("email", ApiService.JString email);
                              ("password", ApiService.JString password)])
         false fetched w in
  match posted with
  | Throws e => (rethrowWithFallback "Sign in failed" (Throws e), w1)
  | Returns ApiService.JNull =>
      (rethrowWithFallback "Sign in failed"
         (Throws {| kind := TypeError;
                    message := "Cannot read properties of null (reading 'session')" |}),
       w1)
  | Returns response =>
      match optProp "access_token" (prop "session" response) with
      | Some access_token =>
          if jsonTruthy access_token then
            match setToken access_token w1 with
            | (Throws e, w2) =>
                (rethrowWithFallback "Sign in failed" (Throws e), w2)
            | (Returns _, w2) =>
                (Returns response,
                 {| token := token w2;
                    localStorage :=
                      setItem "user_data"
                        (stringify
                           (ApiService.JObject
                              (field "user" (prop "user" response)
                               ++ field "profile" (prop "profile" response))%list))
                        (localStorage w2);
                    sent := sent w2 |})
            end
          else (Returns response, w1)
      | None => (Returns response, w1)
      end
  end.

(** [signOut()]. *)
Definition signOut (fetched : Outcome (ApiService.Response number)) (w : World)
  : Outcome JSON * World :=
  let (posted, w1) :=
    post "/api/auth/signout" (ApiService.JObject []) true fetched w in
  match posted with
  | Returns _ =>
      (Returns (ApiService.JObject [("success", ApiService.JBool true)]),
       clearUserData w1)
  | Throws e =>
      (rethrowWithFallback "Sign out failed" (Throws e), clearUserData w1)
  end.

(** [verifyToken()]. *)
Definition verifyToken (fetched : Outcome (ApiService.Response number))
    (w : World) : Outcome JSON * World :=
  let (response, w1) := get "/api/auth/verify" true fetched w in
  match response with
  | Returns r => (Returns r, w1)
  | Throws _ =>
      (Throws (newError "Token verification failed"), clearUserData w1)
  end.

(** [resetPassword(email)]. *)
Definition resetPassword (email : string)
    (fetched : Outcome (ApiService.Response number)) (w : World)
  : Outcome JSON * World :=
  let (response, w1) :=
    post "/api/auth/reset-password"
         (ApiService.JObject [("email", ApiService.JString email)])
         false fetched w in
  (rethrowWithFallback "Password reset failed" response, w1).

(** [updatePassword(newPassword, refreshToken)]. *)
Definition updatePassword (newPassword refreshToken : string)
    (fetched : Outcome (ApiService.Response number)) (w : World)
  : Outcome JSON * World :=
  let (response, w1) :=
    post "/api/auth/update-password"
         (ApiService.JObject
            [("new_password", ApiService.JString newPassword);
             ("refresh_token", ApiService.JString refreshToken)])
         true fetched w in
  (rethrowWithFallback "Password update failed" response, w1).

(** [getCurrentUser()]; [JNull] is [null]. *)
Definition getCurrentUser (w : World) : JSON :=
  match getItem "user_data" (localStorage w) with
  | Some userData =>
      if JS.truthy userData then
        match parse userData with
        | Returns v => v
        | Throws _ => ApiService.JNull
        end
      else ApiService.JNull
  | None => ApiService.JNull
  end.

(** [isAuthenticated()]. *)
Definition isAuthenticated (w : World) : bool :=
  match getItem "auth_token" (localStorage w) with
  | Some t => JS.truthy t && jsonTruthy (getCurrentUser w)
  | None => false
  end.

(** [getUserRole()]. *)
Definition getUserRole (w : World) : JSON :=
  match optProp "role" (optProp "profile" (Some (getCurrentUser w))) with
  | Some role => if jsonTruthy role then role else ApiService.JString "patient"
  | None => ApiService.JString "patient"
  end.

(** [autoLogin()]; [fetched] is what the request of [verifyToken]
    settles to when it is made. *)
Definition autoLogin (fetched : Outcome (ApiService.Response number))
    (w : World) : bool * World :=
  match getItem "auth_token" (localStorage w) with
  | Some t =>
      if JS.truthy t then
        let (verified, w1) := verifyToken fetched w in
        match verified with
        | Returns _ => (true, w1)
        | Throws _ => (false, clearUserData w1)
        end
      else (false, w)
  | None => (false, w)
  end.

(** One call on the two services, with what the network answers to it. *)
Inductive Call : Type :=
| SetToken (t : JSON)
| ClearUserData
| SignUp (userData : JSON) (fetched : Outcome (ApiService.Response number))
| SignIn (email password : string) (fetched : Outcome (ApiService.Response number))
| SignOut (fetched : Outcome (ApiService.Response number))
| VerifyToken (fetched : Outcome (ApiService.Response number))
| ResetPassword (email : string) (fetched : Outcome (ApiService.Response number))
| UpdatePassword (newPassword refreshToken : string)
                 (fetched : Outcome (ApiService.Response number))
| AutoLogin (fetched : Outcome (ApiService.Response number)).

(** The state a call leaves behind. *)
Definition after (call : Call) (w : World) : World :=
  match call with
  | SetToken t => snd (setToken t w)
  | ClearUserData => clearUserData w
  | SignUp userData fetched => snd (signUp userData fetched w)
  | SignIn email password fetched => snd (signIn email password fetched w)
  | SignOut fetched => snd (signOut fetched w)
  | VerifyToken fetched => snd (verifyToken fetched w)
  | ResetPassword email fetched => snd (resetPassword email fetched w)
  | UpdatePassword newPassword refreshToken fetched =>
      snd (updatePassword newPassword refreshToken fetched w)
  | AutoLogin fetched => snd (autoLogin fetched w)
  end.

(** Calls made one after the other. *)
Definition afterAll (calls : list Call) (w : World) : World :=
  fold_left (fun w call => after call w) calls w.

(** The [Authorization] header of a request, when it has one. *)
Definition authorization (hs : list (string * string)) : option string :=
  getItem "Authorization" hs.

End Session.

Arguments token {number} w.
Arguments localStorage {number} w.
Arguments sent {number} w.
Arguments Build_World {number} token localStorage sent.
Arguments newApiService {number} storage.
Arguments setToken {number} numberTruthy numberToString t w.
Arguments getHeaders {number} numberTruthy numberToString includeAuth w.
Arguments request {number} numberTruthy numberToString
  method endpoint body includeAuth fetched w.
Arguments get {number} numberTruthy numberToString endpoint includeAuth.
Arguments post {number} numberTruthy numberToString stringify
  endpoint data includeAuth.
Arguments put {number} numberTruthy numberToString stringify
  endpoint data includeAuth.
Arguments delete {number} numberTruthy numberToString endpoint includeAuth.
Arguments prop {number} key v.
Arguments optProp {number} key v.
Arguments field {number} key v.
Arguments clearUserData {number} numberTruthy numberToString w.
Arguments signUp {number} numberTruthy numberToString stringify userData fetched w.
Arguments signIn {number} numberTruthy numberToString stringify
  email password fetched w.
Arguments signOut {number} numberTruthy numberToString stringify fetched w.
Arguments verifyToken {number} numberTruthy numberToString fetched w.
Arguments resetPassword {number} numberTruthy numberToString stringify
  email fetched w.
Arguments updatePassword {number} numberTruthy numberToString stringify
  newPassword refreshToken fetched w.
Arguments getCurrentUser {number} parse w.
Arguments isAuthenticated {number} numberTruthy parse w.
Arguments getUserRole {number} numberTruthy parse w.
Arguments autoLogin {number} numberTruthy numberToString fetched w.
Arguments SetToken {number} t.
Arguments ClearUserData {number}.
Arguments SignUp {number} userData fetched.
Arguments SignIn {number} email password fetched.
Arguments SignOut {number} fetched.
Arguments VerifyToken {number} fetched.
Arguments ResetPassword {number} email fetched.
Arguments UpdatePassword {number} newPassword refreshToken fetched.
Arguments AutoLogin {number} fetched.
Arguments after {number} numberTruthy numberToString stringify call w.
Arguments afterAll {number} numberTruthy numberToString stringify calls w.

End AuthService.

(* ================================================================== *)
(** ** The interaction engine behind [/api/interactions] and [/predict] *)
(* ================================================================== *)

(** The engine's code is not among the sources. Everything in this module
    follows the specification's sections 3 to 7; what the specification
    leaves to tables and to the trained network is a field of [Env]. *)
Module Engine.

(** Modelled from the spec: section 3, the canonical id of a drug. *)
Definition DrugId := Z.

(** Modelled from the spec: section 3, the severity of a record, in the
    total order of section 4.4: None < Minor < Moderate < Major. *)
Inductive Severity := SevNone | Minor | Moderate | Major.

(** Modelled from the spec: section 4.4 step 6, the place of a severity
    in that order. *)
Definition rank (s : Severity) : nat :=
  match s with SevNone => 0 | Minor => 1 | Moderate => 2 | Major => 3 end.

(** Modelled from the spec: section 4.4 step 6, the greater of two
    severities. *)
Definition maxSeverity (a b : Severity) : Severity :=
  if (rank a <? rank b)%nat then b else a.

(** Modelled from the spec: section 3, Drug, without the alias set
    (the resolver's business) and the fingerprint (a function of the
    structure, see [extract]). *)
Record Drug := {
  id : DrugId;
  canonical_name : string;
  structure_notation : string
}.

(** Modelled from the spec: section 3, a fingerprint as a bit vector. *)
Definition Fingerprint := list bool.

(** Modelled from the spec: section 4.3, a label of the fixed label
    space (by its index) with its probability. Probabilities are carried
    along and never computed with. *)
Definition Scored := (nat * Q)%type.

(** Modelled from the spec: section 7, the error taxonomy. *)
Inductive EngineError :=
| UnknownDrugError (name : string)
| InvalidStructureError (structure : string)
| ModelUnavailableError
| CacheBackendError
| BatchSizeExceededError (size limit : nat).

(** Modelled from the spec: the collaborators and settings of sections
    4.1 to 4.5 whose contents the specification does not fix: the
    resolver's tables, the structure on record for a drug id, the feature
    extractor, the trained network on its concatenated input (its labels
    already ranked), the severity threshold table, the curated store, and
    the configured time to live, batch bound and [top_k]. *)
Record Env := {
  resolve : string -> option Drug;
  structure_of : DrugId -> string;
  extract : string -> option Fingerprint;
  classify : Fingerprint -> list Scored;
  severity_of_labels : list Scored -> Severity;
  curated : list ((DrugId * DrugId) * (Severity * string));
  ttl : Z;
  max_batch : nat;
  top_k : nat;
  model_available : bool;
  cache_available : bool
}.

(** Modelled from the spec: section 3, InteractionKey, the pair with the
    lower id first (the hash of the pair is taken as the pair itself). *)
Definition InteractionKey := (DrugId * DrugId)%type.

(** Modelled from the spec: section 3, the key of two drug ids given in
    any order. *)
Definition make_key (a b : DrugId) : InteractionKey := (Z.min a b, Z.max a b).

(** Modelled from the spec: section 3, the two variants of a record;
    only a predicted one carries labels and an expiry. *)
Inductive Source :=
| Curated
| Predicted (labels : list Scored) (expires_at : Z).

(** Modelled from the spec: section 3, InteractionRecord. *)
Record InteractionRecord := {
  key : InteractionKey;
  source : Source;
  severity : Severity;
  description : string;
  computed_at : Z
}.

(** Modelled from the spec: equality of two pairs of ids, for the exact
    match of sections 3 and 4.5. *)
Definition key_eqb (k1 k2 : InteractionKey) : bool :=
  (fst k1 =? fst k2)%Z && (snd k1 =? snd k2)%Z.

(** Modelled from the spec: section 4.3, [predict]: the pair is put in
    the order of the drug ids before the two fingerprints are
    concatenated; an unparsable structure fails the pair. *)
Definition predict (env : Env) (a b : DrugId) (k : nat)
  : EngineError + list Scored :=
  let '(lo, hi) := make_key a b in
  match extract env (structure_of env lo) with
  | None => inl (InvalidStructureError (structure_of env lo))
  | Some f1 =>
      match extract env (structure_of env hi) with
      | None => inl (InvalidStructureError (structure_of env hi))
      | Some f2 => inr (firstn k (classify env (f1 ++ f2)%list))
      end
  end.

(** Modelled from the spec: section 4.3, [predict_batch]: one result or
    error per pair, in the input's order. *)
Definition predict_batch (env : Env) (pairs : list (DrugId * DrugId)) (k : nat)
  : list (EngineError + list Scored) :=
  map (fun p => predict env (fst p) (snd p) k) pairs.

(** Modelled from the spec: sections 5, 6 and 7, a request to
    [POST /predict/batch]: the boundary rejects a batch over the
    configured maximum pair count before any work begins. *)
Definition post_predict_batch (env : Env) (pairs : list (DrugId * DrugId)) (k : nat)
  : EngineError + list (EngineError + list Scored) :=
  if (max_batch env <? List.length pairs)%nat
  then inl (BatchSizeExceededError (List.length pairs) (max_batch env))
  else inr (predict_batch env pairs k).

(** Modelled from the spec: section 4.5, the cache as the list of its
    entries, the latest first. *)
Definition Cache := list (InteractionKey * InteractionRecord).

(** Modelled from the spec: section 4.5, the entry the cache holds
    under a key, if any. *)
Fixpoint cache_lookup (k : InteractionKey) (c : Cache) : option InteractionRecord :=
  match c with
  | [] => None
  | (k', r) :: rest => if key_eqb k' k then Some r else cache_lookup k rest
  end.

(** Modelled from the spec: section 4.5, storing a record under its key;
    an older entry of the key is no longer found. *)
Definition cache_store (k : InteractionKey) (r : InteractionRecord) (c : Cache) : Cache :=
  (k, r) :: c.

(** Modelled from the spec: section 4.5, the curated store's exact
    match on a pair of ids as it was filed. *)
Fixpoint curated_find (p : DrugId * DrugId)
    (store : list ((DrugId * DrugId) * (Severity * string)))
  : option (Severity * string) :=
  match store with
  | [] => None
  | (q, entry) :: rest => if key_eqb q p then Some entry else curated_find p rest
  end.

(** Modelled from the spec: section 4.5, the curated store is asked for
    the pair's ids in both orders. *)
Definition curated_lookup (env : Env) (k : InteractionKey) : option (Severity * string) :=
  match curated_find (fst k, snd k) (curated env) with
  | Some entry => Some entry
  | None => curated_find (snd k, fst k) (curated env)
  end.

(** Modelled from the spec: section 4.5, a curated record never expires,
    a predicted one is served while [expires_at] is in the future. *)
Definition fresh (now : Z) (r : InteractionRecord) : bool :=
  match source r with
  | Curated => true
  | Predicted _ expires_at => (now <? expires_at)%Z
  end.

(** Modelled from the spec: section 4.5, the path taken on a miss or an
    expiry: the curated store first, the classifier otherwise. *)
Definition compute (env : Env) (now : Z) (k : InteractionKey)
  : EngineError + InteractionRecord :=
  match curated_lookup env k with
  | Some (sev, text) =>
      inr {| key := k; source := Curated; severity := sev;
             description := text; computed_at := now |}
  | None =>
      match predict env (fst k) (snd k) (top_k env) with
      | inl e => inl e
      | inr labels =>
          inr {| key := k; source := Predicted labels (now + ttl env);
                 severity := severity_of_labels env labels;
                 description := ""; computed_at := now |}
      end
  end.

(** Modelled from the spec: sections 4.5 and 7, [get_or_compute]: a fresh
    entry is returned as it is; otherwise the record is computed and
    stored; a failed computation stores nothing; an unreachable cache is
    bypassed. *)
Definition get_or_compute (env : Env) (now : Z) (c : Cache) (k : InteractionKey)
  : (EngineError + InteractionRecord) * Cache :=
  if negb (cache_available env) then (compute env now k, c)
  else
    match cache_lookup k c with
    | Some r =>
        if fresh now r then (inr r, c)
        else match compute env now k with
             | inr r' => (inr r', cache_store k r' c)
             | inl e => (inl e, c)
             end
    | None =>
        match compute env now k with
        | inr r' => (inr r', cache_store k r' c)
        | inl e => (inl e, c)
        end
    end.

(** Modelled from the spec: the engine's answer for two drugs named in
    either order: the cache is asked under the pair's key. *)
Definition resolve_pair (env : Env) (now : Z) (c : Cache) (a b : DrugId)
  : (EngineError + InteractionRecord) * Cache :=
  get_or_compute env now c (make_key a b).

(** Modelled from the spec: section 4.4 step 1. *)
Fixpoint dedupe (names : list string) : list string :=
  match names with
  | [] => []
  | n :: rest =>
      n :: filter (fun m => negb (String.eqb (JS.toLowerCase m) (JS.toLowerCase n)))
                  (dedupe rest)
  end.

(** Modelled from the spec: section 4.4 step 2, the drugs of the names
    the resolver knows. *)
Definition resolved_of (env : Env) (names : list string) : list Drug :=
  flat_map (fun n => match resolve env n with Some d => [d] | None => [] end) names.

(** Modelled from the spec: section 4.4 step 2, the names the resolver
    does not know. *)
Definition unresolved_of (env : Env) (names : list string) : list string :=
  filter (fun n => match resolve env n with Some _ => false | None => true end) names.

(** Modelled from the spec: section 4.4 step 4, the C(n,2) pairs. *)
Fixpoint all_pairs {A : Type} (l : list A) : list (A * A) :=
  match l with
  | [] => []
  | x :: rest => map (pair x) rest ++ all_pairs rest
  end.

(** Modelled from the spec: sections 4.4 and 7, an entry of the report
    for one pair: its record, or the error that failed this pair alone. *)
Definition PairResult := (InteractionKey * (EngineError + InteractionRecord))%type.

(** Modelled from the spec: section 4.4 step 5, every pair through the
    cache, one after the other. *)
Fixpoint resolve_pairs (env : Env) (now : Z) (c : Cache) (pairs : list (Drug * Drug))
  : list PairResult * Cache :=
  match pairs with
  | [] => ([], c)
  | (a, b) :: rest =>
      let '(r, c1) := resolve_pair env now c (id a) (id b) in
      let '(rs, c2) := resolve_pairs env now c1 rest in
      ((make_key (id a) (id b), r) :: rs, c2)
  end.

(** Modelled from the spec: section 4.4 step 6, the maximum over the
    records that were returned. *)
Definition overall (results : list PairResult) : Severity :=
  fold_left
    (fun acc pr => match snd pr with
                   | inr r => maxSeverity acc (severity r)
                   | inl _ => acc
                   end)
    results SevNone.

(** Modelled from the spec: section 3, InteractionReport, without the
    summary text. *)
Record InteractionReport := {
  resolved_drugs : list Drug;
  unresolved_names : list string;
  pairwise_results : list PairResult;
  overall_severity : Severity
}.

(** Modelled from the spec: sections 4.4 and 7, [check]: only a model
    that is unavailable fails the request; an unknown name and a failed
    pair are entries of the report. *)
Definition check (env : Env) (now : Z) (c : Cache) (medication_list : list string)
  : EngineError + (InteractionReport * Cache) :=
  if negb (model_available env) then inl ModelUnavailableError
  else
    let unique := dedupe medication_list in
    let resolved := resolved_of env unique in
    let unresolved := unresolved_of env unique in
    if (List.length resolved <? 2)%nat then
      inr ({| resolved_drugs := resolved; unresolved_names := unresolved;
              pairwise_results := []; overall_severity := SevNone |}, c)
    else
      let '(results, c') := resolve_pairs env now c (all_pairs resolved) in
      inr ({| resolved_drugs := resolved; unresolved_names := unresolved;
              pairwise_results := results;
              overall_severity := overall results |}, c').

End Engine.

(* ================================================================== *)
(** ** Notions the statements use, and sample data *)
(* ================================================================== *)

(** A name occurs in a message without regard to letter case: some
    stretch [w] of the message spells the name once both are lower-cased. *)
Definition occurs_ignoring_case (name message : string) : Prop :=
  exists pre w post,
    message = pre ++ w ++ post /\ JS.toLowerCase w = JS.toLowerCase name.

(** Keeping the first occurrence of every string of a list. *)
Fixpoint firstOccurrences (l : list string) : list string :=
  match l with
  | [] => []
  | x :: rest => x :: filter (fun y => negb (String.eqb y x)) (firstOccurrences rest)
  end.

(** The keys of a [Map], in insertion order. *)
Definition keys (m : Home.JSMap) : list string := map fst m.

Definition absentFrom (l : list string) (y : string) : bool :=
  negb (JS.arrayIncludes l y).

(** Every entry of the map is keyed by its value in lower case. *)
Definition keyedByLowerCase (toLowerCase : string -> string)
    (m : Home.JSMap) : Prop :=
  Forall (fun e => fst e = toLowerCase (snd e)) m.

(** The status line [request] falls back to. *)
Definition httpErrorText {number : Type} (response : ApiService.Response number)
  : string :=
  "HTTP error! status: " ++ JS.showNat (ApiService.status response).

(** Integers as the numbers of the examples. *)
Definition intTruthy (z : Z) : bool := negb (z =? 0)%Z.
Definition intToString (z : Z) : string := NilZero.string_of_int (Z.to_int z).

(** An interaction record of a given severity. *)
Definition record (sev : option string) : DrugInteractionService.Interaction :=
  {| DrugInteractionService.drug1 := "Warfarin";
     DrugInteractionService.drug2 := "Ibuprofen";
     DrugInteractionService.severity := sev;
     DrugInteractionService.description := "" |}.

(** The level [getRiskLevel] gives one record on its own. *)
Definition levelOf (i : DrugInteractionService.Interaction) : string :=
  let s := DrugInteractionService.severityOrLow i in
  if String.eqb "high" s || String.eqb "severe" s then "high"
  else if String.eqb "moderate" s || String.eqb "medium" s then "medium"
  else "low".

Definition levelRank (level : string) : nat :=
  if String.eqb level "high" then 2
  else if String.eqb level "medium" then 1
  else 0.

Definition levelOfRank (n : nat) : string :=
  match n with 0 => "low" | 1 => "medium" | _ => "high" end.

(** The prescription checker as it opens: three empty fields. *)
Definition initialState : PrescriptionChecker.State :=
  {| PrescriptionChecker.drugs := [None; None; None];
     PrescriptionChecker.alert := "";
     PrescriptionChecker.isLoading := false;
     PrescriptionChecker.interactions := [];
     PrescriptionChecker.aiExplanation := "";
     PrescriptionChecker.toast := None |}.

Definition withDrugs (names : list (option string))
    (st : PrescriptionChecker.State) : PrescriptionChecker.State :=
  {| PrescriptionChecker.drugs :=
       map (option_map (fun n => {| PrescriptionChecker.value := n;
                                    PrescriptionChecker.label := n |})) names;
     PrescriptionChecker.alert := PrescriptionChecker.alert st;
     PrescriptionChecker.isLoading := PrescriptionChecker.isLoading st;
     PrescriptionChecker.interactions := PrescriptionChecker.interactions st;
     PrescriptionChecker.aiExplanation := PrescriptionChecker.aiExplanation st;
     PrescriptionChecker.toast := PrescriptionChecker.toast st |}.

(** A back end that answers every check with no interaction and every
    explanation request with a text. *)
Definition quietServices : PrescriptionChecker.Services :=
  {| PrescriptionChecker.checkInteractions := fun _ =>
       Returns {| DrugInteractionService.interactions := Some [] |};
     PrescriptionChecker.explainMedicationRisks := fun _ =>
       Returns {| PrescriptionChecker.explanation := "No known risks." |} |}.

(** The key under which the engine files a pair of drugs. *)
Definition keyOf (p : Engine.Drug * Engine.Drug) : Engine.InteractionKey :=
  Engine.make_key (Engine.id (fst p)) (Engine.id (snd p)).

Definition warfarin : Engine.Drug :=
  {| Engine.id := 1%Z; Engine.canonical_name := "warfarin";
     Engine.structure_notation := "CC(=O)CC(C1=CC=CC=C1)C2=C(O)C3=CC=CC=C3OC2=O" |}.

Definition ibuprofen : Engine.Drug :=
  {| Engine.id := 2%Z; Engine.canonical_name := "ibuprofen";
     Engine.structure_notation := "CC(C)CC1=CC=C(C=C1)C(C)C(=O)O" |}.

Definition brokenol : Engine.Drug :=
  {| Engine.id := 3%Z; Engine.canonical_name := "brokenol";
     Engine.structure_notation := "C(((" |}.

(** An engine with three drugs on record, the third with a structure
    the extractor cannot parse, one curated pair (filed as (2, 1)), a
    day's time to live and batches of at most three pairs. *)
Definition sampleEnv : Engine.Env :=
  {| Engine.resolve := fun name =>
       if String.eqb name "Warfarin" then Some warfarin
       else if String.eqb name "Ibuprofen" then Some ibuprofen
       else if String.eqb name "Brokenol" then Some brokenol
       else None;
     Engine.structure_of := fun d =>
       if (d =? 1)%Z then Engine.structure_notation warfarin
       else if (d =? 2)%Z then Engine.structure_notation ibuprofen
       else Engine.structure_notation brokenol;
     Engine.extract := fun s =>
       if String.eqb s "C(((" then None else Some [true; false; true];
     Engine.classify := fun _ => [(7, (91 # 100)%Q); (3, (42 # 100)%Q); (11, (5 # 100)%Q)];
     Engine.severity_of_labels := fun _ => Engine.Moderate;
     Engine.curated :=
       [((2, 1)%Z, (Engine.Major, "Increased risk of bleeding."))];
     Engine.ttl := 86400%Z;
     Engine.max_batch := 3;
     Engine.top_k := 2;
     Engine.model_available := true;
     Engine.cache_available := true |}.

(** Two records whose severities agree once lower-cased. *)
Definition sameSeverityIgnoringCase
    (a b : DrugInteractionService.Interaction) : Prop :=
  option_map JS.toLowerCase (DrugInteractionService.severity a)
  = option_map JS.toLowerCase (DrugInteractionService.severity b).

(** The test of [removeDrugAt]'s filter: every index but one. *)
Definition keepAllBut (idx : nat)
  : option PrescriptionChecker.DrugOption -> nat -> bool :=
  fun _ i => negb (i =? idx)%nat.

(** The list a check response carries, [[]] when it carries none. *)
Definition interactionsOrEmpty (r : DrugInteractionService.CheckResponse)
  : list DrugInteractionService.Interaction :=
  match DrugInteractionService.interactions r with
  | Some l => l
  | None => []
  end.

(** The alert and the toast of a check that failed with [error]. *)
Definition failedCheckAlert : string :=
  "Failed to check interactions. Please try again.".

Definition errorToast (error : Exception) : PrescriptionChecker.Toast :=
  {| PrescriptionChecker.toastMessage := message error;
     PrescriptionChecker.toastType := "error" |}.

(** A cleaned name whose spelling survives in the [Map]: no name after
    it agrees with it in lower case. *)
Definition lastSpelling (toLowerCase : string -> string) (v : string)
    (names : list string) : Prop :=
  exists pre post,
    names = (pre ++ v :: post)%list
    /\ ~ In (toLowerCase v) (map toLowerCase post).

(** The entry a name makes in the [Map]. *)
Definition keyed (toLowerCase : string -> string) (v : string)
  : string * string := (toLowerCase v, v).

(** An instance of [trim] for the examples: white space of the ASCII
    range only (TAB, LF, VT, FF, CR and SPACE). [String.prototype.trim]
    removes more (U+00A0, U+FEFF and the Unicode space separators); on
    text without those the two agree. *)
Definition asciiSpace (c : ascii) : bool :=
  let n := nat_of_ascii c in
  (((9 <=? n) && (n <=? 13)) || (n =? 32))%nat.

Fixpoint asciiTrimStart (s : string) : string :=
  match s with
  | EmptyString => EmptyString
  | String c s' => if asciiSpace c then asciiTrimStart s' else s
  end.

(** Drops trailing white space: a character is kept when something
    that is kept follows it, or when it is no white space itself. *)
Fixpoint asciiTrimEnd (s : string) : string :=
  match s with
  | EmptyString => EmptyString
  | String c s' =>
      match asciiTrimEnd s' with
      | EmptyString => if asciiSpace c then EmptyString else String c EmptyString
      | rest => String c rest
      end
  end.

Definition asciiTrim (s : string) : string := asciiTrimEnd (asciiTrimStart s).


(** The token in memory and the stored one agree: a truthy token that
    has a text is stored as that text, and when a text that is not empty
    is stored the token in memory is truthy. *)
Definition tokenStored {number : Type} (numberTruthy : number -> bool)
    (numberToString : number -> string) (w : AuthService.World number) : Prop :=
  (forall text,
     ApiService.jsonTruthy numberTruthy (AuthService.token w) = true ->
     ApiService.jsonToString numberToString (AuthService.token w) = Returns text ->
     AuthService.getItem "auth_token" (AuthService.localStorage w) = Some text)
  /\ (forall s,
        AuthService.getItem "auth_token" (AuthService.localStorage w) = Some s ->
        s <> "" ->
        ApiService.jsonTruthy numberTruthy (AuthService.token w) = true).

(** Nothing of a session is left, in memory or in [localStorage]. *)
Definition signedOut {number : Type} (w : AuthService.World number) : Prop :=
  AuthService.token w = ApiService.JNull
  /\ AuthService.getItem "auth_token" (AuthService.localStorage w) = None
  /\ AuthService.getItem "user_data" (AuthService.localStorage w) = None.

(** The same token and the same [localStorage]. *)
Definition sameSession {number : Type} (w w' : AuthService.World number) : Prop :=
  AuthService.token w' = AuthService.token w
  /\ AuthService.localStorage w' = AuthService.localStorage w.

(** The headers of a request without a token. *)
Definition plainHeaders : list (string * string) :=
  [("Content-Type", "application/json")].

(** The headers of a request that carries the token [t]. *)
Definition bearerHeaders (t : string) : list (string * string) :=
  [("Content-Type", "application/json"); ("Authorization", "Bearer " ++ t)].

(** The value of a hexadecimal digit in upper case. *)
Definition hexValue (c : ascii) : nat :=
  let n := nat_of_ascii c in
  if (n <? 58)%nat then n - 48 else n - 55.

(** Reads an encoded text back: [%] and two digits give one byte. *)
Fixpoint percentDecoded (s : string) : string :=
  match s with
  | EmptyString => EmptyString
  | String "%" (String h (String l rest)) =>
      String (ascii_of_nat (16 * hexValue h + hexValue l)) (percentDecoded rest)
  | String c rest => String c (percentDecoded rest)
  end.

(* ================================================================== *)
(** * Proofs *)
(* ================================================================== *)

Section StringFacts.

Lemma append_assoc (a b c : string) : (a ++ b) ++ c = a ++ (b ++ c).
Proof. induction a as [|x a IH]; simpl; [reflexivity | now rewrite IH]. Qed.

Lemma append_empty_r (a : string) : a ++ "" = a.
Proof. induction a as [|x a IH]; simpl; [reflexivity | now rewrite IH]. Qed.

Lemma toLowerCase_append (a b : string) :
  JS.toLowerCase (a ++ b) = JS.toLowerCase a ++ JS.toLowerCase b.
Proof. induction a as [|x a IH]; simpl; [reflexivity | now rewrite IH]. Qed.

Lemma toLowerCase_length (a : string) :
  String.length (JS.toLowerCase a) = String.length a.
Proof. induction a as [|x a IH]; simpl; [reflexivity | now rewrite IH]. Qed.

(** Splitting the image of [toLowerCase] splits the argument. *)
Lemma toLowerCase_split (s : string) :
  forall a b, JS.toLowerCase s = a ++ b ->
  exists a' b', s = a' ++ b' /\ JS.toLowerCase a' = a /\ JS.toLowerCase b' = b.
Proof.
  induction s as [|c s IH]; intros a b H.
  - destruct a; simpl in H; [|discriminate].
    exists "", "". simpl in *. now subst.
  - destruct a as [|x a]; simpl in H.
    + exists "", (String c s). simpl. now subst.
    + injection H as Hx Hs. destruct (IH _ _ Hs) as (a' & b' & -> & Ha & Hb).
      exists (String c a'), b'. simpl. now rewrite Ha, Hx, Hb.
Qed.

Lemma startsWith_spec (s t : string) :
  JS.startsWith s t = true <-> exists post, s = t ++ post.
Proof.
  revert s; induction t as [|b t IH]; intros s; simpl.
  - split; [intros _; now exists s | reflexivity].
  - destruct s as [|a s].
    + split; [discriminate | intros [post H]; discriminate].
    + rewrite andb_true_iff, IH. split.
      * intros [E [post ->]]. apply Ascii.eqb_eq in E. subst. now exists post.
      * intros [post H]. injection H as -> ->. split; [apply Ascii.eqb_refl | now exists post].
Qed.

Lemma includes_spec (s t : string) :
  JS.includes s t = true <-> exists pre post, s = pre ++ t ++ post.
Proof.
  induction s as [|a s IH]; simpl.
  - destruct (JS.startsWith "" t) eqn:E.
    + split; [intros _|reflexivity].
      apply startsWith_spec in E as [post E]. now exists "", post.
    + split; [discriminate|]. intros (pre & post & H).
      destruct pre; simpl in H.
      * assert (JS.startsWith "" t = true) by (apply startsWith_spec; now exists post).
        congruence.
      * discriminate.
  - destruct (JS.startsWith (String a s) t) eqn:E.
    + split; [intros _|reflexivity].
      apply startsWith_spec in E as [post E]. now exists "", post.
    + rewrite IH. split.
      * intros (pre & post & ->). now exists (String a pre), post.
      * intros (pre & post & H). destruct pre as [|x pre]; simpl in H.
        -- assert (JS.startsWith (String a s) t = true)
             by (apply startsWith_spec; now exists post).
           congruence.
        -- injection H as -> ->. now exists pre, post.
Qed.

End StringFacts.

(* ================================================================== *)
(** ** aiService: the medication names found in a message *)
(* ================================================================== *)

Section ExtractMedications.

Import AIService.

(** The [forEach] loop with its [push] is a filter that appends to what
    was found before. *)
Lemma forEach_push_is_filter (lowerMessage : string) (meds found : list string) :
  fold_left (pushIfFound lowerMessage) meds found
  = (found ++ filter (JS.includes lowerMessage) meds)%list.
Proof.
  revert found; induction meds as [|med meds IH]; intros found; simpl.
  - now rewrite app_nil_r.
  - rewrite IH. unfold pushIfFound.
    destruct (JS.includes lowerMessage med); [|reflexivity].
    now rewrite <- app_assoc.
Qed.

Lemma extractMedications_filter (message : string) :
  extractMedicationsFromMessage message
  = filter (JS.includes (JS.toLowerCase message)) commonMedications.
Proof. unfold extractMedicationsFromMessage. now rewrite forEach_push_is_filter. Qed.

(** The eight names are spelled in lower case already. *)
Lemma commonMedications_lower (med : string) :
  In med commonMedications -> JS.toLowerCase med = med.
Proof.
  unfold commonMedications; simpl.
  intros H; repeat (destruct H as [<- | H]; [reflexivity|]); contradiction.
Qed.

Lemma commonMedications_NoDup : NoDup commonMedications.
Proof.
  unfold commonMedications.
  repeat (constructor; [simpl; intros H;
    repeat (destruct H as [H | H]; [discriminate H|]); exact H|]).
  constructor.
Qed.

(** [includes] on the lower-cased message decides the occurrence of a
    lower-case name without regard to case. *)
Lemma includes_lower_iff (name message : string) :
  JS.toLowerCase name = name ->
  JS.includes (JS.toLowerCase message) name = true
  <-> occurs_ignoring_case name message.
Proof.
  intros Hname. rewrite includes_spec. unfold occurs_ignoring_case. split.
  - intros (pre & post & H).
    apply toLowerCase_split in H as (pre' & rest & -> & _ & Hrest).
    apply toLowerCase_split in Hrest as (w & post' & -> & Hw & _).
    exists pre', w, post'. split; [reflexivity | congruence].
  - intros (pre & w & post & -> & Hw).
    exists (JS.toLowerCase pre), (JS.toLowerCase post).
    rewrite !toLowerCase_append. congruence.
Qed.

Lemma arrayIncludes_In (l : list string) (x : string) :
  JS.arrayIncludes l x = true <-> In x l.
Proof.
  unfold JS.arrayIncludes. rewrite existsb_exists. split.
  - intros (y & Hy & E). apply String.eqb_eq in E. now subst.
  - intros H. exists x. split; [assumption | apply String.eqb_refl].
Qed.

(** C10. [extractMedicationsFromMessage] returns exactly those of the
    eight hard-coded names that occur in the message without regard to
    letter case: nothing else is returned, no name twice, and the names
    stand in the order of the hard-coded list wherever they appear in
    the message. *)
Theorem extractMedications_exactly_the_names_found (message : string) :
  let found := extractMedicationsFromMessage message in
  (forall med : string,
      In med found <->
      In med commonMedications /\ occurs_ignoring_case med message)
  /\ NoDup found
  /\ found = filter (JS.arrayIncludes found) commonMedications.
Proof.
  cbv zeta. rewrite extractMedications_filter.
  set (p := JS.includes (JS.toLowerCase message)).
  split; [|split].
  - intros med. rewrite filter_In. split.
    + intros [Hin Hp]. split; [assumption|].
      apply includes_lower_iff; [now apply commonMedications_lower | exact Hp].
    + intros [Hin Hocc]. split; [assumption|].
      apply includes_lower_iff; [now apply commonMedications_lower | exact Hocc].
  - apply NoDup_filter, commonMedications_NoDup.
  - apply filter_ext_in. intros med Hin.
    destruct (p med) eqn:E.
    + symmetry. apply arrayIncludes_In, filter_In. now split.
    + symmetry. apply not_true_is_false. intros H.
      apply arrayIncludes_In, filter_In in H. destruct H; congruence.
Qed.

(** A message that names two of them in the other order, one of them
    twice and in capitals. *)
Example extractMedications_example :
  extractMedicationsFromMessage "Can I take Aspirin with IBUPROFEN and aspirin?"
  = ["ibuprofen"; "aspirin"].
Proof. reflexivity. Qed.

End ExtractMedications.

(* ================================================================== *)
(** ** home-tab: names made unique through a [Map] *)
(* ================================================================== *)

Section UniqueNames.

Import Home.

Variable toLowerCase : string -> string.
Variable trim : string -> string.

Local Abbreviation cleaned := (Home.cleaned trim).
Local Abbreviation normalizeNames := (Home.normalizeNames toLowerCase trim).
Local Abbreviation medsToUse := (Home.medsToUse toLowerCase trim).
Local Abbreviation keyedByLower := (keyedByLowerCase toLowerCase).

Lemma arrayIncludes_cons (x y : string) (l : list string) :
  JS.arrayIncludes (x :: l) y = String.eqb y x || JS.arrayIncludes l y.
Proof. reflexivity. Qed.

Lemma arrayIncludes_app (l1 l2 : list string) (y : string) :
  JS.arrayIncludes (l1 ++ l2) y = JS.arrayIncludes l1 y || JS.arrayIncludes l2 y.
Proof. unfold JS.arrayIncludes. apply existsb_app. Qed.

(** [set] keeps the keys of the map and their order, and puts a new
    key last. *)
Lemma mapSet_keys (m : JSMap) (k v : string) :
  keys (mapSet m k v)
  = if JS.arrayIncludes (keys m) k then keys m else (keys m ++ [k])%list.
Proof.
  induction m as [|[k' v'] m IH]; [reflexivity|].
  change (keys ((k', v') :: m)) with (k' :: keys m).
  rewrite arrayIncludes_cons, (String.eqb_sym k k'). cbn [mapSet].
  destruct (String.eqb k' k) eqn:E; cbn [orb]; [reflexivity|].
  change (keys ((k', v') :: mapSet m k v)) with (k' :: keys (mapSet m k v)).
  rewrite IH. now destruct (JS.arrayIncludes (keys m) k).
Qed.

Lemma filter_filter {A : Type} (p q : A -> bool) (l : list A) :
  filter p (filter q l) = filter (fun a => q a && p a) l.
Proof.
  induction l as [|a l IH]; simpl; [reflexivity|].
  destruct (q a); simpl; [destruct (p a)|]; now rewrite IH.
Qed.

Lemma filter_all {A : Type} (p : A -> bool) (l : list A) :
  (forall a, In a l -> p a = true) -> filter p l = l.
Proof.
  induction l as [|a l IH]; simpl; intros H; [reflexivity|].
  rewrite (H a (or_introl eq_refl)), IH; [reflexivity|]. intros; apply H; now right.
Qed.

(** The keys of a map built entry by entry: the keys it had, then the
    keys that are new, each where it is first seen. *)
Lemma fold_mapSet_keys (entries : list (string * string)) (m : JSMap) :
  keys (fold_left (fun m e => mapSet m (fst e) (snd e)) entries m)
  = (keys m ++ filter (absentFrom (keys m)) (firstOccurrences (map fst entries)))%list.
Proof.
  revert m; induction entries as [|[k v] es IH]; intros m.
  - cbn. now rewrite app_nil_r.
  - cbn [fold_left map fst snd firstOccurrences filter].
    rewrite IH, mapSet_keys. unfold absentFrom at 2.
    destruct (JS.arrayIncludes (keys m) k) eqn:E; cbn [negb].
    + f_equal. rewrite filter_filter. apply filter_ext. intros y.
      unfold absentFrom. destruct (String.eqb y k) eqn:Ey; [|reflexivity].
      apply String.eqb_eq in Ey. subst. now rewrite E.
    + rewrite <- app_assoc. cbn [app]. do 2 f_equal.
      rewrite filter_filter. apply filter_ext. intros y.
      unfold absentFrom. rewrite arrayIncludes_app, arrayIncludes_cons.
      change (JS.arrayIncludes [] y) with false.
      rewrite orb_false_r, negb_orb. apply andb_comm.
Qed.

Lemma newMap_keys (entries : list (string * string)) :
  keys (newMap entries) = firstOccurrences (map fst entries).
Proof.
  unfold newMap. rewrite fold_mapSet_keys. simpl.
  apply filter_all. reflexivity.
Qed.

Lemma mapSet_keyed (m : JSMap) (v : string) :
  keyedByLower m -> keyedByLower (mapSet m (toLowerCase v) v).
Proof.
  unfold keyedByLowerCase.
  induction m as [|[k' v'] m IH]; simpl; intros H.
  - constructor; [reflexivity | constructor].
  - inversion H as [|e l He Hl]; subst.
    destruct (String.eqb k' (toLowerCase v)) eqn:E.
    + apply String.eqb_eq in E. constructor; [exact E | exact Hl].
    + constructor; [exact He | now apply IH].
Qed.

Lemma fold_mapSet_keyed (names : list string) (m : JSMap) :
  keyedByLower m ->
  keyedByLower
    (fold_left (fun m e => mapSet m (fst e) (snd e))
               (map (fun v => (toLowerCase v, v)) names) m).
Proof.
  revert m; induction names as [|v names IH]; intros m H; simpl; [exact H|].
  apply IH, mapSet_keyed, H.
Qed.

Lemma keyed_values (m : JSMap) :
  keyedByLower m -> map toLowerCase (values m) = keys m.
Proof.
  unfold keyedByLowerCase, values, keys.
  induction 1 as [|[k v] m He _ IH]; simpl; [reflexivity|].
  simpl in He. now rewrite IH, He.
Qed.

(** The values of the map are values that were set. *)
Lemma mapSet_values_incl (m : JSMap) (k v : string) :
  incl (values (mapSet m k v)) (v :: values m).
Proof.
  unfold values.
  induction m as [|[k' v'] m IH]; simpl; [apply incl_refl|].
  destruct (String.eqb k' k); simpl.
  - intros x [<- | H]; [now left | now right; right].
  - intros x [<- | H]; [now right; left|].
    destruct (IH x H) as [<- | H']; [now left | now right; right].
Qed.

Lemma fold_mapSet_values_incl (entries : list (string * string)) (m : JSMap) :
  incl (values (fold_left (fun m e => mapSet m (fst e) (snd e)) entries m))
       (values m ++ map snd entries).
Proof.
  revert m; induction entries as [|[k v] es IH]; intros m; simpl.
  - rewrite app_nil_r. apply incl_refl.
  - intros x Hx. apply IH in Hx. apply in_app_or in Hx as [Hx | Hx].
    + apply mapSet_values_incl in Hx as [<- | Hx];
        apply in_or_app; [right; now left | now left].
    + apply in_or_app. right. now right.
Qed.

Lemma firstOccurrences_incl (l : list string) (x : string) :
  In x (firstOccurrences l) -> In x l.
Proof.
  induction l as [|a l IH]; simpl; [trivial|].
  intros [<- | H]; [now left|]. apply filter_In in H as [H _]. right; now apply IH.
Qed.

Lemma firstOccurrences_NoDup (l : list string) : NoDup (firstOccurrences l).
Proof.
  induction l as [|a l IH]; simpl; constructor.
  - intros H. apply filter_In in H as [_ H].
    now rewrite String.eqb_refl in H.
  - now apply NoDup_filter.
Qed.

Lemma firstOccurrences_complete (l : list string) (x : string) :
  In x l -> In x (firstOccurrences l).
Proof.
  induction l as [|a l IH]; simpl; [trivial|].
  intros [<- | H]; [now left|].
  destruct (String.eqb x a) eqn:E.
  - apply String.eqb_eq in E. now left.
  - right. apply filter_In. split; [now apply IH | now rewrite E].
Qed.

Lemma map_fst_keyed (names : list string) :
  map fst (map (fun v => (toLowerCase v, v)) names) = map toLowerCase names.
Proof. rewrite map_map. reflexivity. Qed.

Lemma map_snd_keyed (names : list string) :
  map snd (map (fun v => (toLowerCase v, v)) names) = names.
Proof. rewrite map_map. simpl. apply map_id. Qed.

(** The cleaned names, read off the input: the name of each element,
    trimmed, those that are empty left out. *)
Lemma cleaned_names (arr : list MedInput) :
  cleaned arr
  = filter (fun s => negb (String.eqb s "")) (map (fun m => trim (nameOf m)) arr).
Proof.
  unfold Home.cleaned. rewrite map_map.
  rewrite (map_ext (fun x => trim (if JS.truthy (nameOf x) then nameOf x else ""))
                   (fun m => trim (nameOf m)))
    by (intros m; now destruct (nameOf m)).
  apply filter_ext. intros s. now destruct s.
Qed.

(** C7. On the mobile client, whatever JavaScript's [toLowerCase] and
    [trim] do: the names the confirmation modal submits for the check
    ([medsToUse], which [normalizeNames] computes as well) are unique
    without regard to letter case and keep the order in which each name
    was first seen. With the names of the input (the name of each
    element, trimmed, the empty ones left out): in lower case the names
    submitted are the first occurrences of the input's names in lower
    case, no two of them agree in lower case, and each is one of the
    input's names. *)
Theorem medsToUse_unique_ignoring_case (medications : option (list MedInput)) :
  let given := match medications with Some a => a | None => [] end in
  let names :=
    filter (fun s => negb (String.eqb s ""))
           (map (fun m => trim (nameOf m)) given) in
  let sent := medsToUse medications in
  map toLowerCase sent = firstOccurrences (map toLowerCase names)
  /\ NoDup (map toLowerCase sent)
  /\ incl sent names
  /\ normalizeNames medications = sent.
Proof.
  cbv zeta. unfold Home.medsToUse, Home.normalizeNames.
  rewrite cleaned_names.
  set (names := filter _ _).
  assert (Hk : map toLowerCase
                 (values (newMap (map (fun v => (toLowerCase v, v)) names)))
               = firstOccurrences (map toLowerCase names)).
  { rewrite keyed_values.
    - now rewrite newMap_keys, map_fst_keyed.
    - apply fold_mapSet_keyed. constructor. }
  split; [exact Hk|]. split; [|split].
  - rewrite Hk. apply firstOccurrences_NoDup.
  - intros x Hx. unfold newMap in Hx. apply fold_mapSet_values_incl in Hx.
    simpl in Hx. now rewrite map_snd_keyed in Hx.
  - reflexivity.
Qed.

End UniqueNames.

(** On ASCII names: the entry keeps the place of the first spelling and
    the letters of the last one. *)
Example medsToUse_example :
  Home.medsToUse JS.toLowerCase asciiTrim
    (Some [Home.MedString " Aspirin"; Home.MedObject (Some "Ibuprofen");
           Home.MedNullish; Home.MedString "ASPIRIN "; Home.MedString "  "])
  = ["ASPIRIN"; "Ibuprofen"].
Proof. reflexivity. Qed.

(* ================================================================== *)
(** ** api.js: what [request] returns and what it throws *)
(* ================================================================== *)

Section RequestOutcome.

Import ApiService.

Variable number : Type.
Variable numberTruthy : number -> bool.
Variable numberToString : number -> string.

Local Abbreviation request := (ApiService.request numberTruthy numberToString).
Local Abbreviation jsonTruthy := (ApiService.jsonTruthy numberTruthy).
Local Abbreviation jsonToString := (ApiService.jsonToString numberToString).

(** An error response never makes [request] return. *)
Lemma request_not_ok_throws (response : Response number) :
  ok response = false -> exists e, request (Returns response) = Throws e.
Proof.
  intros Hok. unfold ApiService.request. cbn [bind]. rewrite Hok. cbn [negb].
  destruct (getDetail _) as [d|e]; cbn [bind]; eauto.
  destruct (errorText _ _ d response) as [text|e]; cbn [bind]; eauto.
Qed.

(** C9, as the code has it. For every response: [request] returns a
    value exactly when the status is ok and the body parses, and the
    value is the parsed body; an ok response whose body does not parse
    throws the parser's error. An error response always throws: an
    [Error] whose
    message is 'Request failed' when the body does not parse, the body's
    [detail] (as a string) when the body is an object with a truthy
    [detail] that has a string (when the conversion of the [detail]
    throws, [request] throws what the conversion threw), and
    'HTTP error! status: <code>' when the body is any
    other value but [null], or an object whose [detail] is missing or
    falsy. *)
Theorem request_returns_or_throws (response : Response number) :
  let result := request (Returns response) in
  (forall v, result = Returns v <-> ok response = true /\ json response = Returns v)
  /\ (forall e, ok response = true -> json response = Throws e -> result = Throws e)
  /\ (ok response = false -> exists e, result = Throws e)
  /\ (forall e, ok response = false -> json response = Throws e ->
        result = Throws (newError "Request failed"))
  /\ (forall props d text, ok response = false ->
        json response = Returns (JObject props) ->
        lookupProp "detail" props = Some d -> jsonTruthy d = true ->
        jsonToString d = Returns text ->
        result = Throws (newError text))
  /\ (forall props d e, ok response = false ->
        json response = Returns (JObject props) ->
        lookupProp "detail" props = Some d -> jsonTruthy d = true ->
        jsonToString d = Throws e ->
        result = Throws e)
  /\ (forall props s, ok response = false ->
        json response = Returns (JObject props) ->
        lookupProp "detail" props = Some (JString s) -> s <> "" ->
        result = Throws (newError s))
  /\ (forall props d, ok response = false ->
        json response = Returns (JObject props) ->
        lookupProp "detail" props = Some d -> jsonTruthy d = false ->
        result = Throws (newError (httpErrorText response)))
  /\ (forall body, ok response = false -> json response = Returns body ->
        body <> JNull ->
        (forall props, body = JObject props -> lookupProp "detail" props = None) ->
        result = Throws (newError (httpErrorText response))).
Proof.
  cbv zeta. unfold ApiService.request.
  cbn [bind].
  split; [|split; [|split; [|split; [|split; [|split; [|split; [|split]]]]]]].
  - intros v. split.
    + destruct (ok response); cbn [negb].
      * intros H. split; [reflexivity | exact H].
      * destruct (getDetail _) as [d|e]; cbn [bind]; [|discriminate].
        destruct (errorText _ _ d response); cbn [bind]; discriminate.
    + intros [Hok Hj]. now rewrite Hok.
  - intros e Hok Hj. now rewrite Hok.
  - apply request_not_ok_throws.
  - intros e Hok Hj. now rewrite Hok, Hj.
  - intros props d text Hok Hj Hd Ht Hs. rewrite Hok, Hj.
    cbn [negb getDetail bind]. rewrite Hd. unfold errorText. now rewrite Ht, Hs.
  - intros props d e Hok Hj Hd Ht Hs. rewrite Hok, Hj.
    cbn [negb getDetail bind]. rewrite Hd. unfold errorText. now rewrite Ht, Hs.
  - intros props s Hok Hj Hd Hs. rewrite Hok, Hj. cbn [negb getDetail bind].
    rewrite Hd. unfold errorText. cbn. destruct s; [contradiction | reflexivity].
  - intros props d Hok Hj Hd Ht. rewrite Hok, Hj. cbn [negb getDetail bind].
    rewrite Hd. unfold errorText. now rewrite Ht.
  - intros body Hok Hj Hnull Hnone. rewrite Hok, Hj. cbn [negb].
    destruct body as [|b|n|s|items|props]; try reflexivity.
    + contradiction.
    + cbn [getDetail bind]. now rewrite (Hnone props eq_refl).
Qed.

End RequestOutcome.

(** C9, the claim as it was written fails: a response with an ok status
    whose body is not JSON (an empty 204 answer, say) makes [request]
    throw the parser's error; no parsed body is returned. *)
Example request_ok_unparsable_body_throws :
  ApiService.request intTruthy intToString
    (Returns {| ApiService.ok := true; ApiService.status := 204;
                ApiService.json :=
                  Throws {| kind := SyntaxError;
                            message := "Unexpected end of JSON input" |} |})
  = Throws {| kind := SyntaxError; message := "Unexpected end of JSON input" |}.
Proof. reflexivity. Qed.

(** A [detail] object with an own [toString] property has no string:
    the conversion inside [new Error] throws and [request] throws that
    TypeError. *)
Example request_detail_without_string :
  ApiService.request intTruthy intToString
    (Returns {| ApiService.ok := false; ApiService.status := 400;
                ApiService.json :=
                  Returns (ApiService.JObject
                             [("detail",
                               ApiService.JObject
                                 [("toString", ApiService.JNumber 1%Z)])]) |})
  = Throws {| kind := TypeError;
              message := "Cannot convert object to primitive value" |}.
Proof. reflexivity. Qed.

(** An empty [detail] is falsy: the status line is the message. *)
Example request_empty_detail :
  ApiService.request intTruthy intToString
    (Returns {| ApiService.ok := false; ApiService.status := 400;
                ApiService.json :=
                  Returns (ApiService.JObject [("detail", ApiService.JString "")]) |})
  = Throws (newError "HTTP error! status: 400").
Proof. reflexivity. Qed.

Example request_detail :
  ApiService.request intTruthy intToString
    (Returns {| ApiService.ok := false; ApiService.status := 404;
                ApiService.json :=
                  Returns (ApiService.JObject
                             [("detail", ApiService.JString "Medication not found")]) |})
  = Throws (newError "Medication not found").
Proof. reflexivity. Qed.

Example request_unparsable_error_body :
  ApiService.request intTruthy intToString
    (Returns {| ApiService.ok := false; ApiService.status := 502;
                ApiService.json :=
                  Throws {| kind := SyntaxError; message := "Unexpected token <" |} |})
  = Throws (newError "Request failed").
Proof. reflexivity. Qed.

(* ================================================================== *)
(** ** drugInteractionService: the risk level and the message *)
(* ================================================================== *)

Section RiskLevel.

Import DrugInteractionService.

Lemma getRiskLevel_unfold (l : list Interaction) :
  getRiskLevel (Some l)
  = let severities := map severityOrLow l in
    if JS.arrayIncludes severities "high" || JS.arrayIncludes severities "severe"
    then "high"
    else if JS.arrayIncludes severities "moderate"
            || JS.arrayIncludes severities "medium"
    then "medium" else "low".
Proof. destruct l; reflexivity. Qed.

(** What the code computes, for every list: the highest of the levels
    of its records, where a record counts as high for 'high' and
    'severe', as medium for 'moderate' and 'medium', and as low for
    every other severity or none. *)
Lemma levelOfRank_max_high (m : nat) : levelOfRank (Nat.max 2 m) = "high".
Proof. destruct m as [|[|m]]; reflexivity. Qed.

Lemma orb_pairs (a b c d : bool) : (a || c) || (b || d) = (a || b) || (c || d).
Proof. destruct a, b, c, d; reflexivity. Qed.

Lemma getRiskLevel_highest_level (l : list Interaction) :
  getRiskLevel (Some l)
  = levelOfRank (list_max (map (fun i => levelRank (levelOf i)) l)).
Proof.
  rewrite getRiskLevel_unfold. cbv zeta.
  induction l as [|i l IH]; [reflexivity|].
  cbn [map].
  change (list_max (?x :: ?r)) with (Nat.max x (list_max r)).
  rewrite !arrayIncludes_cons.
  rewrite (orb_pairs (String.eqb "high" _) (String.eqb "severe" _)),
          (orb_pairs (String.eqb "moderate" _) (String.eqb "medium" _)).
  set (m := list_max _) in *. unfold levelOf.
  destruct (String.eqb "high" (severityOrLow i)
            || String.eqb "severe" (severityOrLow i)); cbn [orb].
  { change (levelRank "high") with 2. now rewrite levelOfRank_max_high. }
  destruct (JS.arrayIncludes (map severityOrLow l) "high"
            || JS.arrayIncludes (map severityOrLow l) "severe").
  - assert (Hle : forall r, r <= 2 -> levelOfRank (Nat.max r m) = "high").
    { intros r Hr. replace (Nat.max r m) with m; [now rewrite <- IH|].
      destruct m as [|[|m]]; try discriminate IH. lia. }
    destruct (_ || _); [change (levelRank "medium") with 1
                       | change (levelRank "low") with 0]; apply eq_sym, Hle; lia.
  - destruct (String.eqb "moderate" (severityOrLow i)
              || String.eqb "medium" (severityOrLow i)); cbn [orb].
    + change (levelRank "medium") with 1.
      destruct (_ || _); destruct m as [|[|m]]; try discriminate IH; reflexivity.
    + change (levelRank "low") with 0. exact IH.
Qed.

(** C2, where the code departs from it: the back end's highest level
    is spelled 'major' (the [risk_level] type of the schema, the README's
    risk levels, the mobile client's [severityStyles]); [getRiskLevel]
    knows 'high' and 'severe' only, so a list whose only record is Major
    gets the lowest verdict, its toast is a 'success' one, and one Major
    record beside a Moderate one gets the middle verdict. *)
Example getRiskLevel_major_is_low :
  getRiskLevel (Some [record (Some "major")]) = "low"
  /\ getRiskLevel (Some [record (Some "Major")]) = "low"
  /\ getRiskLevel (Some [record (Some "major"); record (Some "moderate")]) = "medium"
  /\ PrescriptionChecker.toastType
       (PrescriptionChecker.completeToast
          {| interactions := Some [record (Some "major")] |}) = "success".
Proof. repeat split; reflexivity. Qed.

End RiskLevel.

Section InteractionMessage.

Import DrugInteractionService.

Lemma includes_prefix (a b : string) : JS.includes (a ++ b) a = true.
Proof. apply includes_spec. now exists "", b. Qed.

Lemma includes_suffix (a b : string) : JS.includes (a ++ b) b = true.
Proof.
  apply includes_spec. exists a, "". now rewrite append_empty_r.
Qed.

Lemma includes_self (a : string) : JS.includes a a = true.
Proof.
  apply includes_spec. exists "", "". simpl. now rewrite append_empty_r.
Qed.

Lemma highRiskText_truthy (n : nat) (rest : string) :
  JS.truthy (highRiskText n ++ rest) = true.
Proof. reflexivity. Qed.

Lemma mediumRiskText_truthy (n : nat) : JS.truthy (mediumRiskText n) = true.
Proof. reflexivity. Qed.

(** The message of a list that is not empty, by the two counts. *)
Lemma formatInteractionMessage_nonempty (l : list Interaction) :
  l <> [] ->
  formatInteractionMessage (Some l)
  = match List.length (highRisk l), List.length (mediumRisk l) with
    | 0, 0 => "Some interactions detected. Please review carefully."
    | 0, S m => mediumRiskText (S m)
    | S h, 0 => highRiskText (S h)
    | S h, S m => highRiskText (S h) ++ mediumRiskText (S m)
    end.
Proof.
  intros Hl. unfold formatInteractionMessage.
  destruct l as [|i l]; [contradiction|].
  change (List.length (i :: l) =? 0)%nat with false. cbv iota zeta.
  destruct (List.length (highRisk (i :: l))) as [|h];
    destruct (List.length (mediumRisk (i :: l))) as [|m]; reflexivity.
Qed.

(** C8, as the code has it. The message of [formatInteractionMessage]
    is a fixed sentence for an empty list; for any other list it holds
    the number of high-risk records when there is one, then the number
    of moderate-risk records when there is one, and nothing else; with
    neither it is a second fixed sentence. No other severity is counted,
    and the names of unresolved inputs are no argument of it. *)
Theorem formatInteractionMessage_counts (l : list Interaction) :
  let text := formatInteractionMessage (Some l) in
  let high := List.length (highRisk l) in
  let medium := List.length (mediumRisk l) in
  (l = [] -> text = "No significant drug interactions found.")
  /\ (0 < high -> JS.includes text (highRiskText high) = true)
  /\ (0 < medium -> JS.includes text (mediumRiskText medium) = true)
  /\ (l <> [] -> 0 < high + medium ->
        text = (if (0 <? high)%nat then highRiskText high else "")
               ++ (if (0 <? medium)%nat then mediumRiskText medium else ""))
  /\ (l <> [] -> high = 0 -> medium = 0 ->
        text = "Some interactions detected. Please review carefully.").
Proof.
  cbv zeta. split; [intros ->; reflexivity|].
  assert (Hne : 0 < List.length (highRisk l) \/ 0 < List.length (mediumRisk l)
                -> l <> []).
  { intros H ->. cbn in H. lia. }
  split; [|split; [|split]].
  - intros H. rewrite formatInteractionMessage_nonempty by (apply Hne; now left).
    destruct (List.length (highRisk l)) as [|h]; [lia|].
    destruct (List.length (mediumRisk l)) as [|m];
      [apply includes_self | apply includes_prefix].
  - intros H. rewrite formatInteractionMessage_nonempty by (apply Hne; now right).
    destruct (List.length (mediumRisk l)) as [|m]; [lia|].
    destruct (List.length (highRisk l)) as [|h];
      [apply includes_self | apply includes_suffix].
  - intros Hl H. rewrite formatInteractionMessage_nonempty by assumption.
    destruct (List.length (highRisk l)) as [|h];
      destruct (List.length (mediumRisk l)) as [|m]; cbn [Nat.ltb Nat.leb].
    + lia.
    + reflexivity.
    + symmetry. apply append_empty_r.
    + reflexivity.
  - intros Hl Hh Hm. rewrite formatInteractionMessage_nonempty by assumption.
    now rewrite Hh, Hm.
Qed.

(** C8, the claim as it was written fails: two Minor records and an
    unresolved input named Foobar. The message is the fixed sentence: it
    holds no count of the Minor records (no '2', no digit at all) and
    does not name the unresolved input. *)
Example formatInteractionMessage_no_count_no_names :
  let text :=
    formatInteractionMessage
      (Some [record (Some "minor"); record (Some "minor")]) in
  text = "Some interactions detected. Please review carefully."
  /\ JS.includes text (JS.showNat 2) = false
  /\ JS.includes text "Foobar" = false.
Proof. repeat split; reflexivity. Qed.

Example formatInteractionMessage_example :
  formatInteractionMessage
    (Some [record (Some "HIGH"); record None; record (Some "Moderate");
           record (Some "medium"); record (Some "minor")])
  = "⚠️ 1 high-risk interaction(s) detected. ⚡ 2 moderate-risk interaction(s) found. ".
Proof. reflexivity. Qed.

End InteractionMessage.

(* ================================================================== *)
(** ** prescription checker: fewer than two medications *)
(* ================================================================== *)

Section FewerThanTwo.

Import PrescriptionChecker.

(** C6, as the code has it. With fewer than two medications selected,
    [handleCheck] runs no check: no service is called, the warning toast
    asks for at least two medications, and nothing else of the state
    changes (no result list, no verdict, the alert as it was). An empty
    or missing result list does get the lowest risk level, 'low', and its
    fixed message. *)
Theorem handleCheck_fewer_than_two (svc : Services) (st : State)
    (Hfew : List.length (selectedDrugs st) < 2) :
  handleCheck svc st = (setToast (Some tooFewWarning) st, [])
  /\ DrugInteractionService.getRiskLevel (Some []) = "low"
  /\ DrugInteractionService.getRiskLevel None = "low".
Proof.
  split; [|split; reflexivity].
  unfold handleCheck. apply Nat.ltb_lt in Hfew. now rewrite Hfew.
Qed.

(** C6, an instance: the screen with Aspirin alone selected. *)
Lemma handleCheck_fewer_than_two_witness :
  List.length (selectedDrugs (withDrugs [Some "Aspirin"; None; None] initialState)) < 2
  /\ handleCheck quietServices (withDrugs [Some "Aspirin"; None; None] initialState)
     = (setToast (Some tooFewWarning)
          (withDrugs [Some "Aspirin"; None; None] initialState), []).
Proof.
  split; [cbn; lia|].
  apply (handleCheck_fewer_than_two quietServices
           (withDrugs [Some "Aspirin"; None; None] initialState)).
  cbn; lia.
Defined.

(** C6, the claim as it was written fails: one medication selected, on
    a back end that would answer an empty report. The request is turned
    down on the screen: no call is made and the toast is the warning. *)
Example handleCheck_one_drug_rejected :
  let st := withDrugs [Some "Aspirin"; None; None] initialState in
  snd (handleCheck quietServices st) = []
  /\ toast (fst (handleCheck quietServices st))
     = Some {| toastMessage :=
                 "Please select at least 2 medications to check interactions";
               toastType := "warning" |}
  /\ alert (fst (handleCheck quietServices st)) = "".
Proof. repeat split; reflexivity. Qed.

(** With two medications the same services are called and the empty
    report is shown. *)
Example handleCheck_two_drugs :
  let st := withDrugs [Some "Aspirin"; Some "Ibuprofen"; None] initialState in
  snd (handleCheck quietServices st)
  = [CheckInteractions ["Aspirin"; "Ibuprofen"];
     ExplainMedicationRisks ["Aspirin"; "Ibuprofen"]]
  /\ alert (fst (handleCheck quietServices st))
     = "No significant drug interactions found."
  /\ toast (fst (handleCheck quietServices st))
     = Some {| toastMessage := "Analysis complete! Found 0 interactions.";
               toastType := "success" |}.
Proof. repeat split; reflexivity. Qed.

(** The explanation is awaited inside the same [try]: when it fails
    after a check that succeeded, the interactions found stay on the
    screen under the alert of a failed check. *)
Example handleCheck_explanation_fails :
  let svc :=
    {| checkInteractions := fun _ =>
         Returns {| DrugInteractionService.interactions :=
                      Some [record (Some "high")] |};
       explainMedicationRisks := fun _ =>
         Throws (newError "Failed to generate AI explanation") |} in
  let st := withDrugs [Some "Warfarin"; Some "Ibuprofen"; None] initialState in
  interactions (fst (handleCheck svc st)) = [record (Some "high")]
  /\ alert (fst (handleCheck svc st))
     = "Failed to check interactions. Please try again."
  /\ toast (fst (handleCheck svc st))
     = Some {| toastMessage := "Failed to generate AI explanation";
               toastType := "error" |}.
Proof. repeat split; reflexivity. Qed.

(** The mobile modal has no such bound: it posts a single name as it
    is, and posts nothing only when no name is left. *)
Example fetchInteractionData_example :
  Home.fetchInteractionData JS.toLowerCase asciiTrim
    (Some [Home.MedString "Aspirin"]) = Some ["Aspirin"]
  /\ Home.fetchInteractionData JS.toLowerCase asciiTrim
       (Some [Home.MedString "  "; Home.MedNullish]) = None.
Proof. split; reflexivity. Qed.

End FewerThanTwo.

(* ================================================================== *)
(** ** The engine: pair order, batches and partial failures *)
(* ================================================================== *)

Section EngineFacts.

Import Engine.

Lemma make_key_comm (a b : DrugId) : make_key a b = make_key b a.
Proof. unfold make_key. now rewrite Z.min_comm, Z.max_comm. Qed.

Lemma key_eqb_refl (k : InteractionKey) : key_eqb k k = true.
Proof. unfold key_eqb. now rewrite !Z.eqb_refl. Qed.

Lemma cache_lookup_store (k : InteractionKey) (r : InteractionRecord) (c : Cache) :
  cache_lookup k (cache_store k r c) = Some r.
Proof. unfold cache_store. simpl. now rewrite key_eqb_refl. Qed.

(** A record that was just returned is served again, from the cache and
    without a change to it, for as long as it is fresh. *)
Lemma get_or_compute_again (env : Env) (now later : Z) (c c1 : Cache)
    (k : InteractionKey) (r : InteractionRecord) :
  cache_available env = true ->
  get_or_compute env now c k = (inr r, c1) ->
  fresh later r = true ->
  get_or_compute env later c1 k = (inr r, c1).
Proof.
  intros Hc H Hfresh. unfold get_or_compute in *. rewrite Hc in *. cbn [negb] in *.
  destruct (cache_lookup k c) as [r0|] eqn:Hl.
  - destruct (fresh now r0) eqn:Hf.
    + injection H as <- <-. now rewrite Hl, Hfresh.
    + destruct (compute env now k) as [e|r']; [discriminate|].
      injection H as <- <-. now rewrite cache_lookup_store, Hfresh.
  - destruct (compute env now k) as [e|r']; [discriminate|].
    injection H as <- <-. now rewrite cache_lookup_store, Hfresh.
Qed.

(** What a check of two names leaves to compare: the pairwise results,
    the overall severity and the cache. *)
Lemma check_two_names (env : Env) (now : Z) (c : Cache)
    (nameA nameB : string) (dA dB : Drug) :
  model_available env = true ->
  resolve env nameA = Some dA -> resolve env nameB = Some dB ->
  JS.toLowerCase nameA <> JS.toLowerCase nameB ->
  check env now c [nameA; nameB]
  = let '(r, c') := resolve_pair env now c (id dA) (id dB) in
    inr ({| resolved_drugs := [dA; dB]; unresolved_names := [];
            pairwise_results := [(make_key (id dA) (id dB), r)];
            overall_severity := overall [(make_key (id dA) (id dB), r)] |}, c').
Proof.
  intros Hup HA HB Hne. unfold check. rewrite Hup. cbn [negb dedupe filter].
  destruct (String.eqb (JS.toLowerCase nameB) (JS.toLowerCase nameA)) eqn:E.
  { apply String.eqb_eq in E. congruence. }
  cbn [negb]. unfold resolved_of, unresolved_of.
  cbn [flat_map filter app]. rewrite HA, HB. cbn [app List.length Nat.ltb Nat.leb].
  cbn [all_pairs map app resolve_pairs fst snd].
  now destruct (resolve_pair env now c (id dA) (id dB)) as [r c'].
Qed.

(** C1. The engine's answer for a pair of drugs does not depend on the
    order in which the two are named: the record (or error) and the
    cache left behind are the same for (a, b) and (b, a); a prediction
    is the same in both orders; once a record was returned for one
    order, the other order gets that same record for as long as it has
    not expired and the curated store is the same; and a check of two
    resolvable names gives the same pairwise results, overall severity
    and cache whichever name comes first in the list. *)
Theorem resolve_pair_order_independent (env : Env) (now : Z) (c : Cache)
    (a b : DrugId) :
  resolve_pair env now c a b = resolve_pair env now c b a
  /\ (forall k, predict env a b k = predict env b a k)
  /\ (forall r c1 later,
        cache_available env = true ->
        resolve_pair env now c a b = (inr r, c1) ->
        fresh later r = true ->
        resolve_pair env later c1 b a = (inr r, c1))
  /\ (forall nameA nameB dA dB,
        model_available env = true ->
        resolve env nameA = Some dA -> id dA = a ->
        resolve env nameB = Some dB -> id dB = b ->
        JS.toLowerCase nameA <> JS.toLowerCase nameB ->
        exists rAB rBA c',
          check env now c [nameA; nameB] = inr (rAB, c')
          /\ check env now c [nameB; nameA] = inr (rBA, c')
          /\ pairwise_results rAB = pairwise_results rBA
          /\ overall_severity rAB = overall_severity rBA).
Proof.
  unfold resolve_pair at 1 2 3 4, predict. rewrite (make_key_comm b a).
  split; [reflexivity|]. split; [reflexivity|]. split.
  - intros r c1 later. apply get_or_compute_again.
  - intros nameA nameB dA dB Hup HA <- HB <- Hne.
    rewrite (check_two_names env now c nameA nameB dA dB) by assumption.
    rewrite (check_two_names env now c nameB nameA dB dA)
      by (try assumption; congruence).
    unfold resolve_pair. rewrite (make_key_comm (id dB) (id dA)).
    destruct (get_or_compute env now c (make_key (id dA) (id dB))) as [r c'].
    do 3 eexists. repeat split; reflexivity.
Qed.

(** The curated pair is filed as (2, 1) and found for both orders. *)
Example resolve_pair_example :
  resolve_pair sampleEnv 1000 [] 1%Z 2%Z = resolve_pair sampleEnv 1000 [] 2%Z 1%Z
  /\ fst (resolve_pair sampleEnv 1000 [] 2%Z 1%Z)
     = inr {| key := (1, 2)%Z; source := Curated; severity := Major;
              description := "Increased risk of bleeding.";
              computed_at := 1000 |}.
Proof. split; reflexivity. Qed.

(** The only error of a single pair is an unparsable structure, and
    the structure is one of the pair's own two. *)
Lemma predict_error_own (env : Env) (a b : DrugId) (k : nat) (e : EngineError) :
  predict env a b k = inl e ->
  exists d, (d = a \/ d = b)
            /\ e = InvalidStructureError (structure_of env d)
            /\ extract env (structure_of env d) = None.
Proof.
  unfold predict, make_key.
  assert (Hlo : Z.min a b = a \/ Z.min a b = b) by lia.
  assert (Hhi : Z.max a b = a \/ Z.max a b = b) by lia.
  destruct (extract env (structure_of env (Z.min a b))) eqn:E1.
  - destruct (extract env (structure_of env (Z.max a b))) eqn:E2; [discriminate|].
    intros [= <-]. exists (Z.max a b). now repeat split.
  - intros [= <-]. exists (Z.min a b). now repeat split.
Qed.


(** The boundary of section 5: a request of at most the configured
    number of pairs is answered by [predict_batch]; a larger one is
    refused before [predict_batch] is called. *)
Lemma post_predict_batch_boundary (env : Env) (pairs : list (DrugId * DrugId))
    (k : nat) :
  post_predict_batch env pairs k
  = if (List.length pairs <=? max_batch env)%nat
    then inr (predict_batch env pairs k)
    else inl (BatchSizeExceededError (List.length pairs) (max_batch env)).
Proof.
  unfold post_predict_batch. rewrite Nat.leb_antisym.
  now destruct (max_batch env <? List.length pairs)%nat.
Qed.

(** The batch of the specification's example: the second pair has an
    unparsable structure and is the only error entry. *)
Example predict_batch_example :
  post_predict_batch sampleEnv [(1, 2); (3, 1); (2, 1)]%Z 2
  = inr [ inr [(7, (91 # 100)%Q); (3, (42 # 100)%Q)];
          inl (InvalidStructureError "C(((");
          inr [(7, (91 # 100)%Q); (3, (42 # 100)%Q)] ].
Proof. reflexivity. Qed.

(** A request over the configured bound (four pairs, bound three) is
    refused at the boundary of section 5, before [predict_batch]. *)
Example predict_batch_over_bound_rejected :
  post_predict_batch sampleEnv [(1, 2); (3, 1); (2, 1); (2, 3)]%Z 2
  = inl (BatchSizeExceededError 4 3).
Proof. reflexivity. Qed.

End EngineFacts.

Section PartialFailures.

Import Engine.

(** The only error a single pair can end in is an unparsable structure. *)
Lemma predict_error_local (env : Env) (a b : DrugId) (k : nat) (e : EngineError) :
  predict env a b k = inl e -> exists s, e = InvalidStructureError s.
Proof.
  unfold predict. destruct (make_key a b) as [lo hi].
  destruct (extract env (structure_of env lo)).
  - destruct (extract env (structure_of env hi)); [discriminate|].
    intros H; injection H as <-; eauto.
  - intros H; injection H as <-; eauto.
Qed.

Lemma compute_error_local (env : Env) (now : Z) (k : InteractionKey)
    (e : EngineError) :
  compute env now k = inl e -> exists s, e = InvalidStructureError s.
Proof.
  unfold compute. destruct (curated_lookup env k) as [[sev text]|]; [discriminate|].
  destruct (predict env (fst k) (snd k) (top_k env)) eqn:Hp; [|discriminate].
  intros H; injection H as <-. eapply predict_error_local, Hp.
Qed.

Lemma get_or_compute_error_local (env : Env) (now : Z) (c : Cache)
    (k : InteractionKey) (e : EngineError) :
  fst (get_or_compute env now c k) = inl e -> exists s, e = InvalidStructureError s.
Proof.
  unfold get_or_compute.
  destruct (negb (cache_available env)); [apply compute_error_local|].
  destruct (cache_lookup k c) as [r|].
  - destruct (fresh now r); [discriminate|].
    destruct (compute env now k) eqn:Hc; [|discriminate].
    cbn. intros H; injection H as <-. eapply compute_error_local, Hc.
  - destruct (compute env now k) eqn:Hc; [|discriminate].
    cbn. intros H; injection H as <-. eapply compute_error_local, Hc.
Qed.

(** Every pair gets its entry, in the order of the pairs, whether its
    resolution failed or not. *)
Lemma resolve_pairs_keys (env : Env) (now : Z) (pairs : list (Drug * Drug)) :
  forall c, map fst (fst (resolve_pairs env now c pairs)) = map keyOf pairs.
Proof.
  induction pairs as [|[a b] pairs IH]; intros c; [reflexivity|].
  cbn [resolve_pairs].
  destruct (resolve_pair env now c (id a) (id b)) as [r c1].
  specialize (IH c1). destruct (resolve_pairs env now c1 pairs) as [rs c2].
  cbn in *. now rewrite IH.
Qed.

Lemma resolve_pairs_errors_local (env : Env) (now : Z) (pairs : list (Drug * Drug)) :
  forall c k e,
    In (k, inl e) (fst (resolve_pairs env now c pairs)) ->
    exists s, e = InvalidStructureError s.
Proof.
  induction pairs as [|[a b] pairs IH]; intros c k e; [contradiction|].
  cbn [resolve_pairs].
  destruct (resolve_pair env now c (id a) (id b)) as [r c1] eqn:Hr.
  specialize (IH c1 k e). destruct (resolve_pairs env now c1 pairs) as [rs c2].
  cbn in *. intros [H | H]; [|now apply IH].
  injection H as _ ->. unfold resolve_pair in Hr.
  apply (get_or_compute_error_local env now c (make_key (id a) (id b))).
  now rewrite Hr.
Qed.

Lemma unresolved_of_In (env : Env) (names : list string) (n : string) :
  In n names -> resolve env n = None -> In n (unresolved_of env names).
Proof.
  intros Hin Hn. unfold unresolved_of. apply filter_In. split; [exact Hin|].
  now rewrite Hn.
Qed.

Lemma key_eqb_eq (k1 k2 : InteractionKey) : key_eqb k1 k2 = true -> k1 = k2.
Proof.
  destruct k1 as [a b], k2 as [a' b']. unfold key_eqb. cbn [fst snd].
  intros H. apply andb_true_iff in H as [H1 H2].
  apply Z.eqb_eq in H1, H2. now subst.
Qed.

(** What the cache answers for a key does not change when another
    resolution, of this key or of any other, has gone through the cache
    before. *)
Lemma get_or_compute_stable (env : Env) (now : Z) (c : Cache)
    (k' k : InteractionKey) :
  fst (get_or_compute env now (snd (get_or_compute env now c k')) k)
  = fst (get_or_compute env now c k).
Proof.
  unfold get_or_compute.
  destruct (negb (cache_available env)); [reflexivity|].
  assert (Hstore : forall r',
            compute env now k' = inr r' ->
            (cache_lookup k' c = None
             \/ exists r, cache_lookup k' c = Some r /\ fresh now r = false) ->
            fst (match cache_lookup k (cache_store k' r' c) with
                 | Some r =>
                     if fresh now r then (inr r, cache_store k' r' c)
                     else match compute env now k with
                          | inr r'' => (inr r'', cache_store k r'' (cache_store k' r' c))
                          | inl e => (inl e, cache_store k' r' c)
                          end
                 | None =>
                     match compute env now k with
                     | inr r'' => (inr r'', cache_store k r'' (cache_store k' r' c))
                     | inl e => (inl e, cache_store k' r' c)
                     end
                 end)
            = fst (match cache_lookup k c with
                   | Some r =>
                       if fresh now r then (inr r, c)
                       else match compute env now k with
                            | inr r'' => (inr r'', cache_store k r'' c)
                            | inl e => (inl e, c)
                            end
                   | None =>
                       match compute env now k with
                       | inr r'' => (inr r'', cache_store k r'' c)
                       | inl e => (inl e, c)
                       end
                   end)).
  { intros r' Hc Hmiss. unfold cache_store at 1. cbn [cache_lookup].
    destruct (key_eqb k' k) eqn:Hk.
    - apply key_eqb_eq in Hk. subst k'.
      destruct Hmiss as [-> | (r & -> & ->)]; rewrite Hc;
        now destruct (fresh now r').
    - destruct (cache_lookup k c) as [r|].
      + destruct (fresh now r); [reflexivity|]. now destruct (compute env now k).
      + now destruct (compute env now k). }
  destruct (cache_lookup k' c) as [r|] eqn:Hl.
  - destruct (fresh now r) eqn:Hf; [reflexivity|].
    destruct (compute env now k') as [e|r'] eqn:Hc; cbn [snd]; [reflexivity|].
    apply Hstore; [reflexivity|]. right. now exists r.
  - destruct (compute env now k') as [e|r'] eqn:Hc; cbn [snd]; [reflexivity|].
    apply Hstore; [reflexivity|]. now left.
Qed.

(** Every entry of the pairwise results is the key of its pair with
    what resolving that pair alone gives against the cache the request
    started with. *)
Lemma resolve_pairs_entries (env : Env) (now : Z) (c : Cache)
    (pairs : list (Drug * Drug)) :
  forall c1,
    (forall k, fst (get_or_compute env now c1 k) = fst (get_or_compute env now c k)) ->
    fst (resolve_pairs env now c1 pairs)
    = map (fun p => (keyOf p,
                     fst (resolve_pair env now c (id (fst p)) (id (snd p)))))
          pairs.
Proof.
  induction pairs as [|[a b] pairs IH]; intros c1 Hsame; [reflexivity|].
  cbn [resolve_pairs map fst snd]. unfold resolve_pair at 1 3.
  pose proof (get_or_compute_stable env now c1 (make_key (id a) (id b))) as Hst.
  destruct (get_or_compute env now c1 (make_key (id a) (id b))) as [r c2] eqn:Hr.
  cbn [snd] in Hst.
  assert (Hsame2 : forall k, fst (get_or_compute env now c2 k)
                             = fst (get_or_compute env now c k)).
  { intros k. now rewrite Hst. }
  specialize (IH c2 Hsame2).
  destruct (resolve_pairs env now c2 pairs) as [rs c3]. cbn [fst] in *.
  rewrite IH. f_equal. unfold keyOf. cbn [fst snd]. f_equal.
  unfold resolve_pair. rewrite <- Hsame, Hr. reflexivity.
Qed.

Lemma compute_error_own (env : Env) (now : Z) (k : InteractionKey)
    (e : EngineError) :
  compute env now k = inl e ->
  exists d, (d = fst k \/ d = snd k)
            /\ e = InvalidStructureError (structure_of env d)
            /\ extract env (structure_of env d) = None.
Proof.
  unfold compute. destruct (curated_lookup env k) as [[sev text]|]; [discriminate|].
  destruct (predict env (fst k) (snd k) (top_k env)) eqn:Hp; [|discriminate].
  intros [= <-]. eapply predict_error_own, Hp.
Qed.

Lemma get_or_compute_error_own (env : Env) (now : Z) (c : Cache)
    (k : InteractionKey) (e : EngineError) :
  fst (get_or_compute env now c k) = inl e ->
  exists d, (d = fst k \/ d = snd k)
            /\ e = InvalidStructureError (structure_of env d)
            /\ extract env (structure_of env d) = None.
Proof.
  unfold get_or_compute.
  destruct (negb (cache_available env)); [apply compute_error_own|].
  destruct (cache_lookup k c) as [r|].
  - destruct (fresh now r); [discriminate|].
    destruct (compute env now k) eqn:Hc; [|discriminate].
    cbn. intros [= <-]. eapply compute_error_own, Hc.
  - destruct (compute env now k) eqn:Hc; [|discriminate].
    cbn. intros [= <-]. eapply compute_error_own, Hc.
Qed.

Lemma resolved_of_In (env : Env) (names : list string) (n : string) (d : Drug) :
  In n names -> resolve env n = Some d -> In d (resolved_of env names).
Proof.
  intros Hin Hn. unfold resolved_of. apply in_flat_map. exists n.
  split; [exact Hin|]. rewrite Hn. now left.
Qed.

(** C4, as the specification has it. While the model is available,
    [check] never fails as a request: it returns a report. Every name
    the resolver does not know stands in the report's unresolved names
    and every drug it does know among the resolved drugs. With two
    resolved drugs or more, the pairwise results hold one entry per
    pair of resolved drugs, in order, and the entry of a pair is what
    resolving that pair alone gives against the cache the request
    started with: no other pair's failure or success changes it. A
    failed entry carries an unparsable structure of one of its own two
    drugs, and a pair whose two structures parse has a record. *)
Theorem check_reports_local_failures (env : Env) (now : Z) (c : Cache)
    (names : list string) (Hup : model_available env = true) :
  exists report c',
    check env now c names = inr (report, c')
    /\ (forall n, In n (dedupe names) -> resolve env n = None ->
                  In n (unresolved_names report))
    /\ (forall n d, In n (dedupe names) -> resolve env n = Some d ->
                    In d (resolved_drugs report))
    /\ (2 <= List.length (resolved_drugs report) ->
        pairwise_results report
        = map (fun p => (keyOf p,
                         fst (resolve_pair env now c (id (fst p)) (id (snd p)))))
              (all_pairs (resolved_drugs report)))
    /\ (forall k e, In (k, inl e) (pairwise_results report) ->
          exists d, (d = fst k \/ d = snd k)
                    /\ e = InvalidStructureError (structure_of env d)
                    /\ extract env (structure_of env d) = None)
    /\ (forall p, 2 <= List.length (resolved_drugs report) ->
          In p (all_pairs (resolved_drugs report)) ->
          extract env (structure_of env (id (fst p))) <> None ->
          extract env (structure_of env (id (snd p))) <> None ->
          exists r, In (keyOf p, inr r) (pairwise_results report)).
Proof.
  unfold check. rewrite Hup. cbn [negb].
  set (resolved := resolved_of env (dedupe names)).
  destruct (List.length resolved <? 2)%nat eqn:Hlen.
  - eexists. eexists. split; [reflexivity|]. cbn [resolved_drugs
      unresolved_names pairwise_results].
    apply Nat.ltb_lt in Hlen.
    split; [apply unresolved_of_In|]. split; [apply resolved_of_In|].
    split; [lia|]. split; [contradiction|]. intros; lia.
  - pose proof (resolve_pairs_entries env now c (all_pairs resolved) c
                  (fun k => eq_refl)) as Hentries.
    destruct (resolve_pairs env now c (all_pairs resolved)) as [results c'].
    cbn [fst] in Hentries.
    eexists. eexists. split; [reflexivity|]. cbn [resolved_drugs
      unresolved_names pairwise_results].
    split; [apply unresolved_of_In|]. split; [apply resolved_of_In|].
    split; [intros _; exact Hentries|]. split.
    + intros k e Hin. rewrite Hentries in Hin. apply in_map_iff in Hin.
      destruct Hin as (p & Hp & _). injection Hp as <- Hp.
      unfold resolve_pair in Hp. now apply get_or_compute_error_own in Hp.
    + intros p _ Hin H1 H2.
      destruct (fst (resolve_pair env now c (id (fst p)) (id (snd p))))
        as [e|r] eqn:Hr.
      * exfalso. unfold resolve_pair in Hr.
        apply get_or_compute_error_own in Hr as (d & Hd & _ & Hx).
        unfold make_key in Hd. cbn [fst snd] in Hd.
        assert (Hd' : d = id (fst p) \/ d = id (snd p)) by lia.
        destruct Hd' as [-> | ->]; contradiction.
      * exists r. rewrite Hentries. apply in_map_iff. exists p.
        split; [now rewrite Hr | exact Hin].
Qed.

(** C4, an instance: four names, one unknown, one with a structure that
    does not parse; of the three pairs one has its record and two fail
    on the third drug's structure. *)
Lemma check_reports_local_failures_witness :
  model_available sampleEnv = true
  /\ exists report c',
       check sampleEnv 1000 [] ["Warfarin"; "Mystery"; "Ibuprofen"; "Brokenol"]
       = inr (report, c')
       /\ (forall n,
             In n (dedupe ["Warfarin"; "Mystery"; "Ibuprofen"; "Brokenol"]) ->
             resolve sampleEnv n = None -> In n (unresolved_names report))
       /\ (forall n d,
             In n (dedupe ["Warfarin"; "Mystery"; "Ibuprofen"; "Brokenol"]) ->
             resolve sampleEnv n = Some d -> In d (resolved_drugs report))
       /\ (2 <= List.length (resolved_drugs report) ->
           pairwise_results report
           = map (fun p => (keyOf p,
                            fst (resolve_pair sampleEnv 1000 []
                                   (id (fst p)) (id (snd p)))))
                 (all_pairs (resolved_drugs report)))
       /\ (forall k e, In (k, inl e) (pairwise_results report) ->
             exists d, (d = fst k \/ d = snd k)
                       /\ e = InvalidStructureError (structure_of sampleEnv d)
                       /\ extract sampleEnv (structure_of sampleEnv d) = None)
       /\ (forall p, 2 <= List.length (resolved_drugs report) ->
             In p (all_pairs (resolved_drugs report)) ->
             extract sampleEnv (structure_of sampleEnv (id (fst p))) <> None ->
             extract sampleEnv (structure_of sampleEnv (id (snd p))) <> None ->
             exists r, In (keyOf p, inr r) (pairwise_results report)).
Proof.
  split; [reflexivity|].
  apply (check_reports_local_failures sampleEnv 1000 []
           ["Warfarin"; "Mystery"; "Ibuprofen"; "Brokenol"]).
  reflexivity.
Defined.

(** The report of that request: one unknown name, one curated pair, two
    pairs failed by the third drug's structure; the check as a whole
    succeeds and only the curated record enters the cache. *)
Example check_example :
  check sampleEnv 1000 [] ["Warfarin"; "Mystery"; "Ibuprofen"; "Brokenol"]
  = let bleeding := {| key := (1, 2)%Z; source := Curated; severity := Major;
                       description := "Increased risk of bleeding.";
                       computed_at := 1000 |} in
    inr ({| resolved_drugs := [warfarin; ibuprofen; brokenol];
            unresolved_names := ["Mystery"];
            pairwise_results :=
              [ ((1, 2)%Z, inr bleeding);
                ((1, 3)%Z, inl (InvalidStructureError "C((("));
                ((2, 3)%Z, inl (InvalidStructureError "C(((")) ];
            overall_severity := Major |},
         [((1, 2)%Z, bleeding)]).
Proof. reflexivity. Qed.

(** With the model unavailable the request itself fails. *)
Lemma check_model_unavailable (env : Env) (now : Z) (c : Cache)
    (names : list string) :
  model_available env = false -> check env now c names = inl ModelUnavailableError.
Proof. intros H. unfold check. now rewrite H. Qed.

End PartialFailures.

(* ================================================================== *)
(** ** drugInteractionService: verdict, message and colour together *)
(* ================================================================== *)

Section VerdictAndMessage.

Import DrugInteractionService.

Lemma arrayIncludes_map_severity (l : list Interaction) (x : string) :
  JS.arrayIncludes (map severityOrLow l) x
  = existsb (fun i => String.eqb x (severityOrLow i)) l.
Proof.
  induction l as [|i l IH]; [reflexivity|].
  cbn [map]. rewrite arrayIncludes_cons. cbn [existsb]. now rewrite IH.
Qed.

(** On one record, the test of [getRiskLevel] for a level with two
    spellings is the test of the filters of [formatInteractionMessage]. *)
Lemma severityOrLow_severityIn (a b : string) (i : Interaction) :
  a <> "low" -> b <> "low" -> a <> "" -> b <> "" ->
  String.eqb a (severityOrLow i) || String.eqb b (severityOrLow i)
  = severityIn [a; b] i.
Proof.
  intros Ha Hb Ha' Hb'. unfold severityOrLow, severityIn.
  destruct (severityLower i) as [s|].
  - unfold JS.arrayIncludes. cbn [existsb]. rewrite orb_false_r.
    destruct s as [|c s]; cbn [JS.truthy].
    + apply String.eqb_neq in Ha, Hb, Ha', Hb'.
      rewrite Ha, Hb. rewrite (String.eqb_sym "" a), (String.eqb_sym "" b).
      now rewrite Ha', Hb'.
    + now rewrite (String.eqb_sym a), (String.eqb_sym b).
  - apply String.eqb_neq in Ha, Hb. now rewrite Ha, Hb.
Qed.

Lemma existsb_orb {A : Type} (p q : A -> bool) (l : list A) :
  existsb p l || existsb q l = existsb (fun a => p a || q a) l.
Proof.
  induction l as [|a l IH]; [reflexivity|]. cbn [existsb].
  rewrite <- IH. destruct (p a), (q a), (existsb p l), (existsb q l); reflexivity.
Qed.

Lemma existsb_filter_nil {A : Type} (p : A -> bool) (l : list A) :
  existsb p l = false <-> filter p l = [].
Proof.
  induction l as [|a l IH]; cbn [existsb filter]; [tauto|].
  destruct (p a); cbn [orb]; [|exact IH]. split; discriminate.
Qed.

Lemma includes_two_spellings (a b : string) (l : list Interaction) :
  a <> "low" -> b <> "low" -> a <> "" -> b <> "" ->
  JS.arrayIncludes (map severityOrLow l) a
  || JS.arrayIncludes (map severityOrLow l) b
  = existsb (severityIn [a; b]) l.
Proof.
  intros Ha Hb Ha' Hb'. rewrite !arrayIncludes_map_severity, existsb_orb.
  induction l as [|i l IH]; [reflexivity|]. cbn [existsb].
  now rewrite IH, severityOrLow_severityIn.
Qed.

Lemma getRiskLevel_by_filters (l : list Interaction) :
  (getRiskLevel (Some l) = "high" <-> highRisk l <> [])
  /\ (getRiskLevel (Some l) = "medium" <-> highRisk l = [] /\ mediumRisk l <> [])
  /\ (getRiskLevel (Some l) = "low" <-> highRisk l = [] /\ mediumRisk l = []).
Proof.
  rewrite getRiskLevel_unfold. cbv zeta.
  rewrite (includes_two_spellings "high" "severe") by discriminate.
  rewrite (includes_two_spellings "moderate" "medium") by discriminate.
  unfold highRisk, mediumRisk.
  destruct (existsb (severityIn ["high"; "severe"]) l) eqn:Eh.
  - assert (Hh : filter (severityIn ["high"; "severe"]) l <> []).
    { intros H. apply existsb_filter_nil in H. congruence. }
    intuition (try discriminate; try congruence).
  - apply existsb_filter_nil in Eh. rewrite Eh.
    destruct (existsb (severityIn ["moderate"; "medium"]) l) eqn:Em.
    + assert (Hm : filter (severityIn ["moderate"; "medium"]) l <> []).
      { intros H. apply existsb_filter_nil in H. congruence. }
      intuition (try discriminate; try congruence).
    + apply existsb_filter_nil in Em. rewrite Em.
      intuition (try discriminate; try congruence).
Qed.


Lemma getRiskLevel_has_three_values (interactions : option (list Interaction)) :
  getRiskLevel interactions = "high"
  \/ getRiskLevel interactions = "medium"
  \/ getRiskLevel interactions = "low".
Proof.
  destruct interactions as [l|]; [|auto].
  rewrite getRiskLevel_unfold. cbv zeta.
  destruct (_ || _); [auto|]. destruct (_ || _); auto.
Qed.

(** X2. Whatever the list, the verdict of [getRiskLevel] is one of
    'high', 'medium' and 'low', and each of them has a colour of its own
    in [getRiskColor], the same as in the AI service's
    [getRiskLevelColor]: a verdict is never drawn in the default grey. *)
Theorem getRiskLevel_has_a_colour (interactions : option (list Interaction)) :
  let level := getRiskLevel interactions in
  (level = "high" \/ level = "medium" \/ level = "low")
  /\ getRiskColor (Some level) = AIServiceChat.getRiskLevelColor (Some level)
  /\ getRiskColor (Some level) <> "#cccccc".
Proof.
  cbv zeta.
  assert (H : getRiskLevel interactions = "high"
              \/ getRiskLevel interactions = "medium"
              \/ getRiskLevel interactions = "low").
  { destruct interactions as [l|]; [|auto].
    rewrite getRiskLevel_unfold. cbv zeta.
    destruct (_ || _); [auto|]. destruct (_ || _); auto. }
  split; [exact H|].
  destruct H as [-> | [-> | ->]]; split; solve [reflexivity | discriminate].
Qed.

End VerdictAndMessage.

Section SeverityCase.

Import DrugInteractionService.

Lemma sameSeverity_lower (a b : Interaction) :
  sameSeverityIgnoringCase a b -> severityLower a = severityLower b.
Proof. intros H. exact H. Qed.

Lemma sameSeverity_filter_length (names : list string) (l l' : list Interaction) :
  Forall2 sameSeverityIgnoringCase l l' ->
  List.length (filter (severityIn names) l)
  = List.length (filter (severityIn names) l').
Proof.
  induction 1 as [|a b l l' Hab _ IH]; [reflexivity|].
  assert (E : severityIn names a = severityIn names b)
    by (unfold severityIn; now rewrite (sameSeverity_lower a b Hab)).
  cbn [filter]. rewrite E.
  destruct (severityIn names b); cbn [List.length]; now rewrite IH.
Qed.

Lemma sameSeverity_orLow (l l' : list Interaction) :
  Forall2 sameSeverityIgnoringCase l l' ->
  map severityOrLow l = map severityOrLow l'.
Proof.
  induction 1 as [|a b l l' Hab _ IH]; [reflexivity|].
  cbn [map]. rewrite IH. f_equal.
  unfold severityOrLow. now rewrite (sameSeverity_lower a b Hab).
Qed.

(** X3. The letter case of the severities is ignored throughout: two
    lists whose records agree, one by one, on the lower-cased severity
    get the same verdict from [getRiskLevel], the same message from
    [formatInteractionMessage] and the same colours from [getRiskColor]. *)
Theorem severity_case_is_ignored (l l' : list Interaction)
    (Hsame : Forall2 sameSeverityIgnoringCase l l') :
  getRiskLevel (Some l) = getRiskLevel (Some l')
  /\ formatInteractionMessage (Some l) = formatInteractionMessage (Some l')
  /\ map (fun i => getRiskColor (severity i)) l
     = map (fun i => getRiskColor (severity i)) l'.
Proof.
  split; [|split].
  - rewrite !getRiskLevel_unfold. cbv zeta. now rewrite (sameSeverity_orLow l l').
  - unfold formatInteractionMessage, highRisk, mediumRisk.
    rewrite (Forall2_length Hsame).
    rewrite (sameSeverity_filter_length ["high"; "severe"] l l' Hsame).
    now rewrite (sameSeverity_filter_length ["moderate"; "medium"] l l' Hsame).
  - induction Hsame as [|a b l l' Hab _ IH]; [reflexivity|].
    cbn [map]. rewrite IH. f_equal. unfold getRiskColor.
    unfold sameSeverityIgnoringCase in Hab. now rewrite Hab.
Qed.

(** X3, an instance: severities in capitals and in small letters. *)
Lemma severity_case_is_ignored_witness :
  Forall2 sameSeverityIgnoringCase
    [record (Some "HIGH"); record (Some "Moderate"); record None]
    [record (Some "high"); record (Some "moderate"); record None]
  /\ getRiskLevel (Some [record (Some "HIGH"); record (Some "Moderate"); record None])
     = getRiskLevel (Some [record (Some "high"); record (Some "moderate"); record None]).
Proof.
  assert (H : Forall2 sameSeverityIgnoringCase
                [record (Some "HIGH"); record (Some "Moderate"); record None]
                [record (Some "high"); record (Some "moderate"); record None]).
  { repeat constructor. }
  split; [exact H|].
  exact (proj1 (severity_case_is_ignored _ _ H)).
Defined.

End SeverityCase.

(* ================================================================== *)
(** ** The services' errors *)
(* ================================================================== *)

Section ServiceErrors.

Import ApiService.

Variable number : Type.
Variable numberTruthy : number -> bool.
Variable numberToString : number -> string.

Local Abbreviation request := (ApiService.request numberTruthy numberToString).

(** A second wrapper around a first one never uses its own fallback. *)
Lemma rethrow_twice {A : Type} (outer inner : string) (m : Outcome A) :
  inner <> "" ->
  rethrowWithFallback outer (rethrowWithFallback inner m)
  = rethrowWithFallback inner m.
Proof.
  intros Hinner. destruct m as [a|e]; [reflexivity|].
  cbn [rethrowWithFallback newError message].
  destruct (JS.truthy (message e)) eqn:Ht.
  - now rewrite Ht.
  - destruct inner; [contradiction | reflexivity].
Qed.

Lemma truthy_nonempty (s : string) : JS.truthy s = true <-> s <> "".
Proof. destruct s; cbn; split; congruence. Qed.

(** X4. [checkInteractions] over [request], for whatever [fetch] did:
    a response that [request] returns is handed on unchanged; anything
    [request] throws (a parse error, a TypeError, its own Error) comes
    out as a plain Error whose message is never empty: the message of
    what was thrown, or 'Failed to check drug interactions' when that
    message is empty. *)
Theorem checkInteractions_over_request (fetched : Outcome (Response number)) :
  let answered := request fetched in
  let result := DrugInteractionService.checkInteractions answered in
  (forall v, result = Returns v <-> answered = Returns v)
  /\ (forall e, result = Throws e -> kind e = PlainError /\ message e <> "")
  /\ (forall e0, answered = Throws e0 ->
        result = Throws (newError (if JS.truthy (message e0) then message e0
                                   else "Failed to check drug interactions"))).
Proof.
  cbv zeta. unfold DrugInteractionService.checkInteractions.
  destruct (request fetched) as [v0|e0]; cbn [rethrowWithFallback].
  - split; [tauto|]. split; [discriminate | discriminate].
  - split; [split; discriminate|]. split.
    + intros e H. injection H as <-. cbn [newError kind message].
      split; [reflexivity|].
      destruct (JS.truthy (message e0)) eqn:Ht; [|discriminate].
      now apply truthy_nonempty.
    + intros e1 H. now injection H as <-.
Qed.

End ServiceErrors.

(** An error body whose [detail] is an empty array: truthy, printed as
    the empty string, so the service's own text is what the user sees. *)
Example checkInteractions_empty_array_detail :
  DrugInteractionService.checkInteractions
    (ApiService.request intTruthy intToString
       (Returns {| ApiService.ok := false; ApiService.status := 422;
                   ApiService.json :=
                     Returns (ApiService.JObject
                                [("detail", ApiService.JArray [])]) |}))
  = Throws (newError "Failed to check drug interactions").
Proof. reflexivity. Qed.

(* ================================================================== *)
(** ** aiService: the chat helper *)
(* ================================================================== *)

Section Chat.

Import AIService AIServiceChat.

Lemma medicationKeywords_lower (keyword : string) :
  In keyword medicationKeywords -> JS.toLowerCase keyword = keyword.
Proof.
  unfold medicationKeywords; simpl.
  intros H; repeat (destruct H as [<- | H]; [reflexivity|]); contradiction.
Qed.

Lemma isMedicationQuery_keyword (message : string) :
  isMedicationQuery message = true
  <-> exists keyword, In keyword medicationKeywords
                      /\ occurs_ignoring_case keyword message.
Proof.
  unfold isMedicationQuery. rewrite existsb_exists. split.
  - intros (k & Hin & Hk). exists k. split; [exact Hin|].
    apply includes_lower_iff; [now apply medicationKeywords_lower | exact Hk].
  - intros (k & Hin & Hk). exists k. split; [exact Hin|].
    apply includes_lower_iff; [now apply medicationKeywords_lower | exact Hk].
Qed.

(** X5. [isMedicationQuery] answers true exactly for the messages in
    which one of its nine keywords occurs, letter case aside; a message
    and the same message in other letter case get the same answer. *)
Theorem isMedicationQuery_iff_keyword (message : string) :
  (isMedicationQuery message = true
   <-> exists keyword, In keyword medicationKeywords
                       /\ occurs_ignoring_case keyword message)
  /\ (forall other, JS.toLowerCase other = JS.toLowerCase message ->
                    isMedicationQuery other = isMedicationQuery message).
Proof.
  split; [apply isMedicationQuery_keyword|].
  intros other H. unfold isMedicationQuery. now rewrite H.
Qed.

(** X6. [chatInteraction] always posts one body to
    [/api/ai/custom-prompt]: the message itself as the prompt, the
    context switched on, and as medications the hard-coded names found in
    the message when a keyword occurs in it, none otherwise (a message
    that names a medication without any keyword is sent with an empty
    list). Its own fallback text 'Chat interaction failed' is never
    used: what it throws is what [generateCustomExplanation] throws. *)
Theorem chatInteraction_posts_the_message {A : Type}
    (post : string -> CustomPrompt -> Outcome A) (message : string) :
  let body :=
    {| medications :=
         if isMedicationQuery message
         then extractMedicationsFromMessage message else [];
       custom_prompt := message;
       include_context := true |} in
  chatInteraction post message
  = rethrowWithFallback "Failed to generate custom explanation"
      (post "/api/ai/custom-prompt" body)
  /\ incl (medications body) commonMedications
  /\ (forall med, In med (medications body) ->
        occurs_ignoring_case med message
        /\ exists keyword, In keyword medicationKeywords
                           /\ occurs_ignoring_case keyword message).
Proof.
  cbv zeta. cbn [medications]. split; [|split].
  - unfold chatInteraction, generateCustomExplanation.
    destruct (isMedicationQuery message); now rewrite rethrow_twice.
  - destruct (isMedicationQuery message); [|intros x []].
    rewrite extractMedications_filter. intros x Hx.
    now apply filter_In in Hx.
  - intros med Hmed.
    destruct (isMedicationQuery message) eqn:Hq; [|contradiction].
    split; [|now apply isMedicationQuery_keyword].
    rewrite extractMedications_filter in Hmed. apply filter_In in Hmed as [Hin Hp].
    apply includes_lower_iff; [now apply commonMedications_lower | exact Hp].
Qed.

End Chat.

(* ================================================================== *)
(** ** prescription checker: the list of fields *)
(* ================================================================== *)

Section DrugFields.

Import PrescriptionChecker.

Lemma filterWithIndex_past (idx : nat) (l : list (option DrugOption)) :
  forall i, idx < i -> filterWithIndex (keepAllBut idx) i l = l.
Proof.
  induction l as [|x l IH]; intros i Hi; [reflexivity|].
  cbn [filterWithIndex]. unfold keepAllBut at 1.
  replace (i =? idx)%nat with false by (symmetry; apply Nat.eqb_neq; lia).
  cbn [negb]. now rewrite IH by lia.
Qed.

(** Filtering on [i !== idx] takes out the element at [idx], if any. *)
Lemma filterWithIndex_removes (l : list (option DrugOption)) :
  forall i k,
    filterWithIndex (keepAllBut (i + k)) i l = (firstn k l ++ skipn (S k) l)%list.
Proof.
  induction l as [|x l IH]; intros i k.
  - now destruct k.
  - cbn [filterWithIndex]. unfold keepAllBut at 1. destruct k as [|k].
    + rewrite Nat.add_0_r, Nat.eqb_refl. cbn [negb firstn skipn app].
      apply filterWithIndex_past. lia.
    + replace (i =? i + S k)%nat with false by (symmetry; apply Nat.eqb_neq; lia).
      cbn [negb firstn skipn app]. f_equal.
      replace (i + S k) with (S i + k) by lia. apply IH.
Qed.

Lemma removeDrugAt_many (idx : nat) (drugs : list (option DrugOption)) :
  1 < List.length drugs ->
  removeDrugAt idx drugs = (firstn idx drugs ++ skipn (S idx) drugs)%list.
Proof.
  intros H. unfold removeDrugAt. apply Nat.ltb_lt in H. rewrite H.
  exact (filterWithIndex_removes drugs 0 idx).
Qed.

Lemma removeDrugAt_few (idx : nat) (drugs : list (option DrugOption)) :
  List.length drugs <= 1 -> removeDrugAt idx drugs = drugs.
Proof.
  intros H. unfold removeDrugAt.
  now replace (1 <? List.length drugs)%nat with false
    by (symmetry; apply Nat.ltb_ge; exact H).
Qed.

Lemma removeDrugAt_length (idx : nat) (drugs : list (option DrugOption)) :
  1 < List.length drugs -> idx < List.length drugs ->
  List.length (removeDrugAt idx drugs) = List.length drugs - 1.
Proof.
  intros H Hidx. rewrite removeDrugAt_many by exact H.
  rewrite length_app, length_firstn, length_skipn. lia.
Qed.

Lemma removeDrugAt_outside (idx : nat) (drugs : list (option DrugOption)) :
  List.length drugs <= idx -> removeDrugAt idx drugs = drugs.
Proof.
  intros H. destruct (Nat.le_gt_cases (List.length drugs) 1) as [Hfew | Hmany].
  - now apply removeDrugAt_few.
  - rewrite removeDrugAt_many by exact Hmany.
    rewrite firstn_all2 by exact H. rewrite skipn_all2 by lia. apply app_nil_r.
Qed.

Lemma assignAt_length {A : Type} (idx : nat) (sel : option A) (arr : list (option A)) :
  List.length (assignAt idx sel arr) = Nat.max (List.length arr) (S idx).
Proof.
  unfold assignAt. destruct (idx <? List.length arr)%nat eqn:E.
  - apply Nat.ltb_lt in E.
    rewrite length_app, length_firstn. cbn [List.length]. rewrite length_skipn. lia.
  - apply Nat.ltb_ge in E.
    rewrite !length_app, repeat_length. cbn [List.length]. lia.
Qed.

Lemma applyAction_keeps_a_field (drugs : list (option DrugOption)) (a : FieldAction) :
  1 <= List.length drugs -> 1 <= List.length (applyAction drugs a).
Proof.
  intros H. destruct a as [idx sel | idx inputValue | | idx]; cbn [applyAction].
  - unfold handleDrugChange. rewrite assignAt_length. lia.
  - unfold handleCreateDrug, handleDrugChange. rewrite assignAt_length. lia.
  - unfold addDrugField. rewrite length_app. cbn. lia.
  - destruct (Nat.le_gt_cases (List.length drugs) 1) as [Hfew | Hmany].
    + now rewrite removeDrugAt_few.
    + destruct (Nat.le_gt_cases (List.length drugs) idx) as [Hout | Hin].
      * now rewrite removeDrugAt_outside.
      * rewrite removeDrugAt_length by assumption. lia.
Qed.

(** X7. The form never loses its last field: starting from a list with
    at least one field (it opens with three), whatever the user does, in
    any order (picking or clearing a drug, creating one, adding a field,
    removing one), at least one field is left. *)
Theorem drug_fields_never_empty (actions : list FieldAction)
    (drugs : list (option DrugOption)) (Hone : 1 <= List.length drugs) :
  1 <= List.length (fold_left applyAction actions drugs).
Proof.
  revert drugs Hone. induction actions as [|a actions IH]; intros drugs Hone.
  - exact Hone.
  - cbn [fold_left]. apply IH, applyAction_keeps_a_field, Hone.
Qed.

(** X7, an instance: three removals on the form as it opens, then a
    removal of the field that is left. *)
Lemma drug_fields_never_empty_witness :
  1 <= List.length (drugs initialState)
  /\ 1 <= List.length
            (fold_left applyAction [RemoveAt 0; RemoveAt 0; RemoveAt 0; RemoveAt 0]
                       (drugs initialState)).
Proof.
  split; [cbn; lia|].
  apply (drug_fields_never_empty [RemoveAt 0; RemoveAt 0; RemoveAt 0; RemoveAt 0]
           (drugs initialState)).
  cbn; lia.
Defined.

Lemma selectedDrugs_setDrugs_app_null (l : list (option DrugOption)) (st : State) :
  selectedDrugs (setDrugs (l ++ [None]) st) = selectedDrugs (setDrugs l st).
Proof.
  unfold selectedDrugs. cbn [drugs setDrugs].
  rewrite filter_app. cbn [filter]. now rewrite app_nil_r.
Qed.

(** X8. [removeDrugAt] takes out exactly the field at the index and
    keeps the others in order, provided there are at least two fields;
    with a single field, or with an index past the end, it changes
    nothing. Adding a field and removing it again gives the list back,
    and an added empty field does not change the medications selected. *)
Theorem removeDrugAt_takes_one_field (drugs : list (option DrugOption)) :
  (forall idx, 1 < List.length drugs ->
     removeDrugAt idx drugs = (firstn idx drugs ++ skipn (S idx) drugs)%list)
  /\ (forall idx, 1 < List.length drugs -> idx < List.length drugs ->
        List.length (removeDrugAt idx drugs) = List.length drugs - 1)
  /\ (forall idx, List.length drugs <= 1 -> removeDrugAt idx drugs = drugs)
  /\ (forall idx, List.length drugs <= idx -> removeDrugAt idx drugs = drugs)
  /\ (drugs <> [] ->
        removeDrugAt (List.length drugs) (addDrugField drugs) = drugs)
  /\ (forall st, selectedDrugs (setDrugs (addDrugField drugs) st)
                 = selectedDrugs (setDrugs drugs st)).
Proof.
  split; [intros; now apply removeDrugAt_many|].
  split; [intros; now apply removeDrugAt_length|].
  split; [intros; now apply removeDrugAt_few|].
  split; [intros; now apply removeDrugAt_outside|].
  split.
  - intros Hne. unfold addDrugField. rewrite removeDrugAt_many.
    + rewrite firstn_app, Nat.sub_diag, firstn_all. cbn [firstn].
      rewrite skipn_all2 by (rewrite length_app; cbn; lia).
      now rewrite !app_nil_r.
    + rewrite length_app. cbn. destruct drugs; [contradiction | cbn; lia].
  - intros st. apply selectedDrugs_setDrugs_app_null.
Qed.

Lemma nth_error_assignAt_same {A : Type} (idx : nat) (sel : option A)
    (arr : list (option A)) :
  nth_error (assignAt idx sel arr) idx = Some sel.
Proof.
  unfold assignAt. destruct (idx <? List.length arr)%nat eqn:E.
  - apply Nat.ltb_lt in E.
    rewrite nth_error_app2 by (rewrite length_firstn; lia).
    rewrite length_firstn. replace (idx - Nat.min idx (List.length arr)) with 0 by lia.
    reflexivity.
  - apply Nat.ltb_ge in E.
    rewrite nth_error_app2 by exact E.
    rewrite nth_error_app2 by (rewrite repeat_length; lia).
    rewrite repeat_length. now rewrite Nat.sub_diag.
Qed.

Lemma nth_error_assignAt_other {A : Type} (idx j : nat) (sel : option A)
    (arr : list (option A)) :
  j <> idx -> j < List.length arr ->
  nth_error (assignAt idx sel arr) j = nth_error arr j.
Proof.
  intros Hne Hj. unfold assignAt. destruct (idx <? List.length arr)%nat eqn:E.
  - apply Nat.ltb_lt in E.
    destruct (Nat.lt_ge_cases j idx) as [Hlt | Hge].
    + rewrite nth_error_app1 by (rewrite length_firstn; lia).
      now rewrite nth_error_firstn, (proj2 (Nat.ltb_lt j idx) Hlt).
    + rewrite nth_error_app2 by (rewrite length_firstn; lia).
      rewrite length_firstn.
      replace (j - Nat.min idx (List.length arr)) with (S (j - S idx)) by lia.
      cbn [nth_error]. rewrite nth_error_skipn. f_equal. lia.
  - now rewrite nth_error_app1 by exact Hj.
Qed.

(** X9. [handleDrugChange] writes one field and nothing else: the field
    at the index holds the selection afterwards, every other field of
    the list is as it was, and for an index inside the list the number of
    fields is unchanged (past the end the list grows to reach the index). *)
Theorem handleDrugChange_writes_one_field (idx : nat) (sel : option DrugOption)
    (drugs : list (option DrugOption)) :
  nth_error (handleDrugChange idx sel drugs) idx = Some sel
  /\ (forall j, j <> idx -> j < List.length drugs ->
        nth_error (handleDrugChange idx sel drugs) j = nth_error drugs j)
  /\ List.length (handleDrugChange idx sel drugs)
     = Nat.max (List.length drugs) (S idx).
Proof.
  unfold handleDrugChange. cbv zeta. split; [|split].
  - apply nth_error_assignAt_same.
  - intros j Hne Hj. now apply nth_error_assignAt_other.
  - apply assignAt_length.
Qed.

End DrugFields.

(* ================================================================== *)
(** ** prescription checker: what a check leaves on the screen *)
(* ================================================================== *)

Section HandleCheck.

Import PrescriptionChecker.

Lemma selectedDrugs_nonempty (st : State) :
  Forall (fun name => name <> "") (selectedDrugs st).
Proof.
  unfold selectedDrugs. apply Forall_forall. intros name Hin.
  apply in_map_iff in Hin as (d & <- & Hd). apply filter_In in Hd as [_ Hd].
  destruct d as [o|]; [|discriminate]. now apply truthy_nonempty.
Qed.

(** X10. [handleCheck] never touches the selection, and once two
    medications are selected it always ends with the loading flag off,
    whatever the services do (with fewer, the flag stays as it was). It
    asks for the check first and for the explanation only after the
    check has returned, each at most once and both for the medications
    selected, none of which is an empty name. *)
Theorem handleCheck_bookkeeping (svc : Services) (st : State) :
  let selected := selectedDrugs st in
  let after := fst (handleCheck svc st) in
  let calls := snd (handleCheck svc st) in
  drugs after = drugs st
  /\ (2 <= List.length selected -> isLoading after = false)
  /\ (List.length selected < 2 -> isLoading after = isLoading st)
  /\ (calls = []
      \/ calls = [CheckInteractions selected]
      \/ calls = [CheckInteractions selected; ExplainMedicationRisks selected])
  /\ (In (ExplainMedicationRisks selected) calls
      <-> 2 <= List.length selected
          /\ exists r, checkInteractions svc selected = Returns r)
  /\ Forall (fun name => name <> "") selected.
Proof.
  cbv zeta. unfold handleCheck, tryCheck.
  destruct (List.length (selectedDrugs st) <? 2)%nat eqn:Hlen.
  - apply Nat.ltb_lt in Hlen. cbn [fst snd].
    split; [reflexivity|]. split; [intros; lia|]. split; [reflexivity|].
    split; [now left|]. split; [|apply selectedDrugs_nonempty].
    split; [intros [] | intros [H _]; lia].
  - apply Nat.ltb_ge in Hlen.
    destruct (checkInteractions svc (selectedDrugs st)) as [r|e] eqn:Hc.
    + assert (Hin : 2 <= List.length (selectedDrugs st)
                    /\ exists r0 : DrugInteractionService.CheckResponse,
                         Returns r = Returns r0)
        by (split; [exact Hlen | now exists r]).
      destruct (explainMedicationRisks svc (selectedDrugs st)) as [a|e];
        cbn [fst snd];
        (split; [reflexivity|]); (split; [reflexivity|]); (split; [intros; lia|]);
        (split; [now right; right|]); (split; [|apply selectedDrugs_nonempty]);
        (split; [intros _; exact Hin | intros _; now right; left]).
    + cbn [fst snd].
      split; [reflexivity|]. split; [reflexivity|]. split; [intros; lia|].
      split; [now right; left|]. split; [|apply selectedDrugs_nonempty].
      split.
      * intros [H | []]. discriminate H.
      * intros [_ [r Hr]]. discriminate Hr.
Qed.

(** X11. A failure anywhere in the check is shown as a failed check:
    when the check itself fails, the screen holds no interaction, no
    explanation, the alert 'Failed to check interactions. Please try
    again.' and an error toast with the error's message, and no
    explanation was asked for; when the check succeeds and only the
    explanation fails, the alert and the toast are the same although the
    interactions found are on the screen. *)
Theorem handleCheck_failures (svc : Services) (st : State)
    (Htwo : 2 <= List.length (selectedDrugs st)) :
  let selected := selectedDrugs st in
  let after := fst (handleCheck svc st) in
  (forall error, checkInteractions svc selected = Throws error ->
     interactions after = [] /\ aiExplanation after = ""
     /\ alert after = failedCheckAlert
     /\ toast after = Some (errorToast error)
     /\ snd (handleCheck svc st) = [CheckInteractions selected])
  /\ (forall r error,
        checkInteractions svc selected = Returns r ->
        explainMedicationRisks svc selected = Throws error ->
        interactions after = interactionsOrEmpty r
        /\ aiExplanation after = ""
        /\ alert after = failedCheckAlert
        /\ toast after = Some (errorToast error)).
Proof.
  cbv zeta. unfold handleCheck, tryCheck.
  replace (List.length (selectedDrugs st) <? 2)%nat with false
    by (symmetry; apply Nat.ltb_ge; exact Htwo).
  split.
  - intros error ->. cbn. repeat split; reflexivity.
  - intros r error -> ->. cbn. repeat split; reflexivity.
Qed.

(** X11, an instance: two medications selected, the check answers one
    high-risk interaction and the explanation fails. *)
Lemma handleCheck_failures_witness :
  let svc :=
    {| checkInteractions := fun _ =>
         Returns {| DrugInteractionService.interactions :=
                      Some [record (Some "high")] |};
       explainMedicationRisks := fun _ =>
         Throws (newError "Failed to generate AI explanation") |} in
  let st := withDrugs [Some "Warfarin"; Some "Ibuprofen"; None] initialState in
  2 <= List.length (selectedDrugs st)
  /\ interactions (fst (handleCheck svc st)) = [record (Some "high")]
  /\ alert (fst (handleCheck svc st)) = failedCheckAlert.
Proof.
  cbv zeta.
  set (svc := {| checkInteractions := _; explainMedicationRisks := _ |}).
  set (st := withDrugs _ _).
  assert (Htwo : 2 <= List.length (selectedDrugs st)) by (cbn; lia).
  split; [exact Htwo|].
  destruct (proj2 (handleCheck_failures svc st Htwo)
              {| DrugInteractionService.interactions := Some [record (Some "high")] |}
              (newError "Failed to generate AI explanation") eq_refl eq_refl)
    as (Hi & _ & Ha & _).
  split; [exact Hi | exact Ha].
Defined.

Lemma getRiskLevel_interactionsOrEmpty (r : DrugInteractionService.CheckResponse) :
  DrugInteractionService.getRiskLevel (DrugInteractionService.interactions r)
  = DrugInteractionService.getRiskLevel (Some (interactionsOrEmpty r)).
Proof.
  unfold interactionsOrEmpty.
  now destruct (DrugInteractionService.interactions r).
Qed.

(** X12. When the check and the explanation both return, the screen
    shows the interactions found, the explanation, the message of
    [formatInteractionMessage] as alert, and a toast that counts the
    interactions; the toast is an 'error' one exactly when a high-risk
    record was found, a 'warning' one exactly when none was but a
    moderate-risk one was, and a 'success' one otherwise. *)
Theorem handleCheck_success (svc : Services) (st : State)
    (r : DrugInteractionService.CheckResponse) (a : AiResponse)
    (Htwo : 2 <= List.length (selectedDrugs st))
    (Hcheck : checkInteractions svc (selectedDrugs st) = Returns r)
    (Hexplain : explainMedicationRisks svc (selectedDrugs st) = Returns a) :
  let after := fst (handleCheck svc st) in
  let found := interactionsOrEmpty r in
  interactions after = found
  /\ aiExplanation after = explanation a
  /\ alert after
     = DrugInteractionService.formatInteractionMessage
         (DrugInteractionService.interactions r)
  /\ (exists t, toast after = Some t
        /\ toastMessage t
           = "Analysis complete! Found " ++ JS.showNat (List.length found)
             ++ " interactions."
        /\ (toastType t = "error" <-> DrugInteractionService.highRisk found <> [])
        /\ (toastType t = "warning"
            <-> DrugInteractionService.highRisk found = []
                /\ DrugInteractionService.mediumRisk found <> [])
        /\ (toastType t = "success"
            <-> DrugInteractionService.highRisk found = []
                /\ DrugInteractionService.mediumRisk found = [])).
Proof.
  cbv zeta. unfold handleCheck, tryCheck.
  replace (List.length (selectedDrugs st) <? 2)%nat with false
    by (symmetry; apply Nat.ltb_ge; exact Htwo).
  rewrite Hcheck, Hexplain. cbn [fst].
  split; [reflexivity|]. split; [reflexivity|]. split; [reflexivity|].
  exists (completeToast r). split; [reflexivity|].
  split; [unfold completeToast, foundCount, interactionsOrEmpty; cbn;
          now destruct (DrugInteractionService.interactions r)|].
  unfold completeToast. cbn [toastType].
  rewrite getRiskLevel_interactionsOrEmpty.
  destruct (getRiskLevel_by_filters (interactionsOrEmpty r)) as (Hh & Hm & Hl).
  destruct (getRiskLevel_has_three_values (Some (interactionsOrEmpty r)))
    as [E | [E | E]]; rewrite E in *; cbn;
    intuition (try discriminate; try congruence).
Qed.

(** X12, an instance: the quiet back end and two medications. *)
Lemma handleCheck_success_witness :
  2 <= List.length
         (selectedDrugs (withDrugs [Some "Aspirin"; Some "Ibuprofen"] initialState))
  /\ alert (fst (handleCheck quietServices
                   (withDrugs [Some "Aspirin"; Some "Ibuprofen"] initialState)))
     = "No significant drug interactions found.".
Proof.
  assert (Htwo : 2 <= List.length
            (selectedDrugs (withDrugs [Some "Aspirin"; Some "Ibuprofen"] initialState)))
    by (cbn; lia).
  split; [exact Htwo|].
  exact (proj1 (proj2 (proj2
    (handleCheck_success quietServices
       (withDrugs [Some "Aspirin"; Some "Ibuprofen"] initialState)
       {| DrugInteractionService.interactions := Some [] |}
       {| explanation := "No known risks." |}
       Htwo eq_refl eq_refl)))).
Defined.

End HandleCheck.

(* ================================================================== *)
(** ** home-tab: which spelling is kept, and names merged with history *)
(* ================================================================== *)

Section NamesMerged.

Import Home.

Variable toLowerCase : string -> string.
Variable trim : string -> string.

Local Abbreviation cleaned := (Home.cleaned trim).
Local Abbreviation normalizeNames := (Home.normalizeNames toLowerCase trim).
Local Abbreviation medsToUse := (Home.medsToUse toLowerCase trim).
Local Abbreviation addManuallyHandleCheck := (Home.addManuallyHandleCheck trim).
Local Abbreviation _handleAddManually :=
  (Home._handleAddManually toLowerCase trim).
Local Abbreviation keyedL := (keyed toLowerCase).
Local Abbreviation lastOf := (lastSpelling toLowerCase).

Local Abbreviation step := (fun (m : JSMap) (e : string * string) => mapSet m (fst e) (snd e)).

Lemma mapSet_absent (m : JSMap) (k v : string) :
  ~ In k (keys m) -> mapSet m k v = (m ++ [(k, v)])%list.
Proof.
  induction m as [|[k' v'] m IH]; intros Hk; [reflexivity|].
  cbn [mapSet]. destruct (String.eqb k' k) eqn:E.
  - apply String.eqb_eq in E. exfalso. apply Hk. now left.
  - cbn [app]. f_equal. apply IH. intros H. apply Hk. now right.
Qed.

Lemma mapSet_NoDup (m : JSMap) (k v : string) :
  NoDup (keys m) -> NoDup (keys (mapSet m k v)).
Proof.
  intros H. rewrite mapSet_keys.
  destruct (JS.arrayIncludes (keys m) k) eqn:E; [exact H|].
  apply NoDup_app; [exact H | repeat constructor; intros [] |].
  intros x Hx [Hxk | []]. subst x.
  assert (JS.arrayIncludes (keys m) k = true) by now apply arrayIncludes_In.
  congruence.
Qed.

(** After [set(k, v)] on a map with one entry per key: the entry of [k]
    is [(k, v)], every other entry is as before. *)
Lemma mapSet_In (m : JSMap) (k v k' v' : string) :
  NoDup (keys m) ->
  In (k', v') (mapSet m k v)
  <-> (k' = k /\ v' = v) \/ (k' <> k /\ In (k', v') m).
Proof.
  induction m as [|[k0 v0] m IH]; intros Hnd.
  - cbn. split.
    + intros [H | []]. injection H as <- <-. now left.
    + intros [[-> ->] | [_ []]]. now left.
  - cbn [keys map fst] in Hnd. apply NoDup_cons_iff in Hnd as [Hk0 Hm].
    fold (keys m) in Hk0, Hm. cbn [mapSet].
    destruct (String.eqb k0 k) eqn:E.
    + apply String.eqb_eq in E. subst k0. split.
      * intros [H | H]; [injection H as <- <-; now left|].
        right. split; [|now right].
        intros ->. apply Hk0. change (In (fst (k, v')) (map fst m)).
        now apply in_map.
      * intros [[-> ->] | [Hne [H | H]]]; [now left | | now right].
        injection H as -> _. contradiction.
    + apply String.eqb_neq in E. split.
      * intros [H | H].
        -- injection H as <- <-. right. split; [exact E | now left].
        -- apply IH in H; [|exact Hm].
           destruct H as [H | [Hne H]]; [now left | right; split; [exact Hne | now right]].
      * intros [[-> ->] | [Hne [H | H]]].
        -- right. apply IH; [exact Hm | now left].
        -- now left.
        -- right. apply IH; [exact Hm | now right].
Qed.

(** The entries of a map built entry by entry: for every key the last
    entry set for it, or the one the map had when none was set. *)
Lemma fold_mapSet_In (es : list (string * string)) :
  forall (m : JSMap) (k v : string),
    NoDup (keys m) ->
    In (k, v) (fold_left step es m)
    <-> (exists pre post, es = (pre ++ (k, v) :: post)%list
                          /\ ~ In k (map fst post))
        \/ (~ In k (map fst es) /\ In (k, v) m).
Proof.
  induction es as [|[k0 v0] es IH]; intros m k v Hnd.
  - cbn. split.
    + intros H. right. split; [intros [] | exact H].
    + intros [(pre & post & H & _) | [_ H]]; [|exact H].
      destruct pre; discriminate H.
  - cbn [fold_left fst snd].
    rewrite (IH (mapSet m k0 v0) k v (mapSet_NoDup m k0 v0 Hnd)).
    rewrite (mapSet_In m k0 v0 k v Hnd). split.
    + intros [(pre & post & -> & Hpost) | [Hk [[-> ->] | [Hne Hin]]]].
      * left. now exists ((k0, v0) :: pre), post.
      * left. now exists [], es.
      * right. split; [|exact Hin]. cbn. intros [H | H]; [now symmetry in H | contradiction].
    + intros [(pre & post & H & Hpost) | [Hk Hin]].
      * destruct pre as [|e pre]; cbn in H.
        -- injection H as E1 E2 E3. subst. right. split; [exact Hpost | now left].
        -- injection H as E1 E2. subst. left. now exists pre, post.
      * right. cbn in Hk. split; [tauto|]. right. split; [|exact Hin].
        intros ->. tauto.
Qed.

Lemma map_keyed_split (names : list string) :
  forall pre post k v,
    map keyedL names = (pre ++ (k, v) :: post)%list ->
    exists pre' post',
      names = (pre' ++ v :: post')%list /\ k = toLowerCase v
      /\ map fst post = map toLowerCase post'.
Proof.
  induction names as [|n names IH]; intros pre post k v H.
  - destruct pre; discriminate H.
  - destruct pre as [|e pre]; cbn in H.
    + injection H as <- <- <-. exists [], names. repeat split.
      rewrite map_map. reflexivity.
    + injection H as _ H. destruct (IH _ _ _ _ H) as (pre' & post' & -> & Hk & Hp).
      exists (n :: pre'), post'. now repeat split.
Qed.

Lemma uniqueNames_In (names : list string) (v : string) :
  In v (values (newMap (map keyedL names))) <-> lastOf v names.
Proof.
  unfold values, newMap, lastSpelling. rewrite in_map_iff. split.
  - intros ([k v'] & Hv & Hin). cbn in Hv. subst v'.
    apply fold_mapSet_In in Hin; [|constructor].
    destruct Hin as [(pre & post & H & Hpost) | [_ []]].
    apply map_keyed_split in H as (pre' & post' & -> & -> & Hp).
    exists pre', post'. split; [reflexivity|]. now rewrite <- Hp.
  - intros (pre & post & -> & Hpost).
    exists (toLowerCase v, v). split; [reflexivity|].
    apply fold_mapSet_In; [constructor|]. left.
    exists (map keyedL pre), (map keyedL post). split.
    + now rewrite map_app.
    + unfold keyed. now rewrite map_map.
Qed.

(** X13. Of several spellings of one name, [normalizeNames] keeps the
    last, whatever JavaScript's [toLowerCase] and [trim] do: a name is
    in the result exactly when it is one of the input's names (the name
    of each element, trimmed, the empty ones left out) and no name after
    it agrees with it in lower case (the place it takes is that of the
    first spelling). *)
Theorem normalizeNames_keeps_last_spelling (arr : option (list MedInput))
    (v : string) :
  let given := match arr with Some a => a | None => [] end in
  let names :=
    filter (fun s => negb (String.eqb s ""))
           (map (fun m => trim (nameOf m)) given) in
  In v (normalizeNames arr) <-> lastOf v names.
Proof.
  cbv zeta. rewrite <- cleaned_names. unfold Home.normalizeNames.
  apply uniqueNames_In.
Qed.

End NamesMerged.

Section AsciiTrim.

Lemma asciiTrimEnd_cons (c : ascii) (s : string) :
  asciiTrimEnd (String c s)
  = match asciiTrimEnd s with
    | EmptyString => if asciiSpace c then EmptyString else String c EmptyString
    | rest => String c rest
    end.
Proof. reflexivity. Qed.

Lemma asciiTrimEnd_idempotent (s : string) : asciiTrimEnd (asciiTrimEnd s) = asciiTrimEnd s.
Proof.
  induction s as [|c s IH]; [reflexivity|].
  rewrite (asciiTrimEnd_cons c s). destruct (asciiTrimEnd s) as [|d r] eqn:E.
  - destruct (asciiSpace c) eqn:Ec; [reflexivity|].
    rewrite asciiTrimEnd_cons. cbn [asciiTrimEnd]. now rewrite Ec.
  - rewrite asciiTrimEnd_cons, IH. reflexivity.
Qed.

(** What [trimStart] leaves is empty or starts with no white space. *)
Lemma asciiTrimStart_head (s : string) :
  match asciiTrimStart s with
  | EmptyString => True
  | String c _ => asciiSpace c = false
  end.
Proof.
  induction s as [|c s IH]; [exact I|].
  cbn [asciiTrimStart]. destruct (asciiSpace c) eqn:Ec; [exact IH | exact Ec].
Qed.

Lemma asciiTrimEnd_keeps_head (c : ascii) (s : string) :
  asciiSpace c = false -> exists r, asciiTrimEnd (String c s) = String c r.
Proof.
  intros Hc. rewrite asciiTrimEnd_cons. destruct (asciiTrimEnd s) as [|d r].
  - rewrite Hc. now exists "".
  - now exists (String d r).
Qed.

Lemma asciiTrim_idempotent (s : string) : asciiTrim (asciiTrim s) = asciiTrim s.
Proof.
  unfold asciiTrim. pose proof (asciiTrimStart_head s) as H.
  destruct (asciiTrimStart s) as [|c t]; [reflexivity|].
  destruct (asciiTrimEnd_keeps_head c t H) as [r Hr].
  rewrite Hr. cbn [asciiTrimStart]. rewrite H, <- Hr. apply asciiTrimEnd_idempotent.
Qed.

End AsciiTrim.

Section NamesCleaned.

Import Home.

Variable toLowerCase : string -> string.
Variable trim : string -> string.

Local Abbreviation cleaned := (Home.cleaned trim).
Local Abbreviation normalizeNames := (Home.normalizeNames toLowerCase trim).
Local Abbreviation medsToUse := (Home.medsToUse toLowerCase trim).
Local Abbreviation addManuallyHandleCheck := (Home.addManuallyHandleCheck trim).
Local Abbreviation _handleAddManually :=
  (Home._handleAddManually toLowerCase trim).
Local Abbreviation keyedL := (keyed toLowerCase).
Local Abbreviation lastOf := (lastSpelling toLowerCase).

(** Trimming what is trimmed changes nothing. *)
Hypothesis trim_twice : forall s, trim (trim s) = trim s.

Lemma cleaned_strings (l : list string) :
  cleaned (map MedString l) = filter JS.truthy (map trim l).
Proof.
  unfold Home.cleaned. rewrite !map_map. f_equal. apply map_ext.
  intros s. cbn [nameOf]. now destruct s.
Qed.

Lemma cleaned_app (a b : list MedInput) :
  cleaned (a ++ b) = (cleaned a ++ cleaned b)%list.
Proof. unfold Home.cleaned. now rewrite !map_app, filter_app. Qed.

(** A cleaned name is trimmed and not empty. *)
Lemma cleaned_spec (arr : list MedInput) (v : string) :
  In v (cleaned arr) -> trim v = v /\ JS.truthy v = true.
Proof.
  unfold Home.cleaned. intros H. apply filter_In in H as [H Ht]. split; [|exact Ht].
  apply in_map_iff in H as (s & <- & _). apply trim_twice.
Qed.

Lemma cleaned_fixpoint (l : list string) :
  (forall v, In v l -> trim v = v /\ JS.truthy v = true) ->
  cleaned (map MedString l) = l.
Proof.
  intros H. rewrite cleaned_strings.
  induction l as [|v l IH]; [reflexivity|].
  cbn [map filter]. destruct (H v (or_introl eq_refl)) as [Hv Ht].
  rewrite Hv, Ht. f_equal. apply IH. intros w Hw. apply H. now right.
Qed.

Lemma fold_mapSet_fresh (es : list (string * string)) :
  forall m : JSMap,
    NoDup (keys m ++ map fst es) ->
    fold_left (fun m e => mapSet m (fst e) (snd e)) es m = (m ++ es)%list.
Proof.
  induction es as [|[k v] es IH]; intros m Hnd.
  - now rewrite app_nil_r.
  - cbn [fold_left fst snd]. cbn [map fst] in Hnd.
    rewrite mapSet_absent.
    + rewrite IH.
      * now rewrite <- app_assoc.
      * unfold keys. rewrite map_app. cbn [map fst].
        now rewrite <- app_assoc.
    + apply NoDup_remove_2 in Hnd. intros H. apply Hnd.
      apply in_or_app. now left.
Qed.

Lemma uniqueNames_keys (names : list string) :
  map toLowerCase (values (newMap (map keyedL names)))
  = firstOccurrences (map toLowerCase names).
Proof.
  unfold keyed. rewrite keyed_values.
  - now rewrite newMap_keys, map_fst_keyed.
  - apply fold_mapSet_keyed. constructor.
Qed.

(** Names that are unique in lower case go through the [Map] unchanged. *)
Lemma uniqueNames_fixpoint (names : list string) :
  NoDup (map toLowerCase names) ->
  values (newMap (map keyedL names)) = names.
Proof.
  intros H. unfold newMap, keyed. rewrite fold_mapSet_fresh.
  - cbn [app]. apply map_snd_keyed.
  - cbn [keys map app]. now rewrite map_fst_keyed.
Qed.

Lemma normalizeNames_cleaned (arr : option (list MedInput)) (v : string) :
  In v (normalizeNames arr) -> trim v = v /\ JS.truthy v = true.
Proof.
  intros H. unfold Home.normalizeNames, newMap in H.
  apply fold_mapSet_values_incl in H. cbn [values map app] in H.
  rewrite map_snd_keyed in H. eapply cleaned_spec, H.
Qed.

Lemma normalizeNames_NoDup (arr : option (list MedInput)) :
  NoDup (map toLowerCase (normalizeNames arr)).
Proof.
  unfold Home.normalizeNames. change (fun v => (toLowerCase v, v)) with (keyed toLowerCase).
  rewrite uniqueNames_keys. apply firstOccurrences_NoDup.
Qed.

Lemma normalizeNames_again (arr : option (list MedInput)) :
  normalizeNames (Some (map MedString (normalizeNames arr))) = normalizeNames arr.
Proof.
  unfold Home.normalizeNames at 1. change (fun v => (toLowerCase v, v)) with (keyed toLowerCase).
  rewrite cleaned_fixpoint by apply normalizeNames_cleaned.
  apply uniqueNames_fixpoint, normalizeNames_NoDup.
Qed.

(** X14. Normalizing twice is normalizing once, whatever JavaScript's
    [toLowerCase] does and for a [trim] that changes nothing on what is
    trimmed: a list that [normalizeNames] produced goes through
    [normalizeNames] and through the confirmation modal's [medsToUse]
    unchanged, so the second pass the modal makes over Home's list
    neither drops nor reorders nor respells a name. *)
Theorem normalizeNames_idempotent (arr : option (list MedInput)) :
  normalizeNames (Some (map MedString (normalizeNames arr))) = normalizeNames arr
  /\ medsToUse (Some (map MedString (normalizeNames arr))) = normalizeNames arr.
Proof.
  split; exact (normalizeNames_again arr).
Qed.

(** X15. Whatever JavaScript's [trim] and [toLowerCase] do: the names
    [AddManually] hands over are the inputs whose trimmed text is not
    empty, in their order, and dropping the others there changes
    nothing: Home's [normalizeNames] gives the same list for the inputs
    as they were typed. *)
Theorem addManually_filter_is_redundant (inputs : list string) :
  let submitted := addManuallyHandleCheck inputs in
  Forall (fun name => trim name <> "") submitted
  /\ submitted = filter (fun name => JS.truthy (trim name)) inputs
  /\ normalizeNames (Some (map MedString submitted))
     = normalizeNames (Some (map MedString inputs)).
Proof.
  cbv zeta. unfold Home.addManuallyHandleCheck.
  assert (E : forall name,
             negb (String.eqb (trim name) "") = JS.truthy (trim name)).
  { intros name. now destruct (trim name). }
  rewrite (filter_ext _ _ E). split; [|split; [reflexivity|]].
  - apply Forall_forall. intros name H. apply filter_In in H as [_ H].
    now apply truthy_nonempty.
  - unfold Home.normalizeNames. do 3 f_equal. rewrite !cleaned_strings.
    induction inputs as [|n inputs IH]; [reflexivity|].
    cbn [filter map]. destruct (JS.truthy (trim n)) eqn:Hn.
    + cbn [map filter]. now rewrite Hn, IH.
    + exact IH.
Qed.

Lemma firstOccurrences_NoDup_id (l : list string) :
  NoDup l -> firstOccurrences l = l.
Proof.
  induction 1 as [|x l Hx _ IH]; [reflexivity|].
  cbn [firstOccurrences]. rewrite IH. f_equal. apply filter_all.
  intros y Hy. destruct (String.eqb y x) eqn:E; [|reflexivity].
  apply String.eqb_eq in E. now subst.
Qed.

Lemma cleaned_of_strings (l : list string) :
  cleaned (map MedString l)
  = filter (fun s => negb (String.eqb s "")) (map trim l).
Proof. rewrite cleaned_names, map_map. reflexivity. Qed.

(** X16. Merging with the history in [_handleAddManually], whatever
    JavaScript's [toLowerCase] does and for a [trim] that changes
    nothing on what is trimmed: in lower case, the merged list is the
    hand-typed list as [normalizeNames] made it, followed by the
    trimmed, non-empty history names that are not among them (each
    once, where first seen). The history never reorders or drops a
    hand-typed name, and with an empty history (no token, or a failed
    fetch) the merged list is the hand-typed list as [normalizeNames]
    made it. *)
Theorem handleAddManually_merges_after (manualMeds : option (list MedInput))
    (historyList : list string) :
  let manualKeys := map toLowerCase (normalizeNames manualMeds) in
  map toLowerCase (_handleAddManually manualMeds historyList)
  = (manualKeys
     ++ filter (absentFrom manualKeys)
          (firstOccurrences
             (map toLowerCase
                (filter (fun s => negb (String.eqb s ""))
                        (map trim historyList)))))%list
  /\ _handleAddManually manualMeds [] = normalizeNames manualMeds.
Proof.
  cbv zeta. rewrite <- cleaned_of_strings. split.
  2:{ unfold Home._handleAddManually. cbv zeta. cbn [map]. rewrite app_nil_r.
      apply normalizeNames_again. }
  unfold Home._handleAddManually. cbv zeta.
  set (manualList := normalizeNames manualMeds).
  unfold Home.normalizeNames at 1.
  rewrite cleaned_app, (cleaned_fixpoint manualList)
    by apply normalizeNames_cleaned.
  rewrite keyed_values by (apply fold_mapSet_keyed; constructor).
  unfold newMap. rewrite map_app, fold_left_app, fold_mapSet_keys.
  fold (newMap (map (fun v => (toLowerCase v, v)) manualList)).
  rewrite newMap_keys, !map_fst_keyed.
  subst manualList.
  now rewrite (firstOccurrences_NoDup_id _ (normalizeNames_NoDup manualMeds)).
Qed.

Lemma toggled_twice (r : Reminder) : toggled (toggled r) = r.
Proof. destruct r as [i n t tt ic tk]. unfold toggled. cbn. now rewrite negb_involutive. Qed.

(** X17. Ticking a reminder twice gives the list of reminders back;
    one tick changes only the [taken] flag of the reminders with that
    id: every other reminder is untouched, and the ids, names and times
    of all reminders, in order, stay as they were. *)
Theorem handleTaken_toggles (i : nat) (reminders : list Reminder) :
  _handleTaken i (_handleTaken i reminders) = reminders
  /\ map id (_handleTaken i reminders) = map id reminders
  /\ map name (_handleTaken i reminders) = map name reminders
  /\ map time (_handleTaken i reminders) = map time reminders
  /\ (forall r, In r reminders -> id r <> i -> In r (_handleTaken i reminders))
  /\ map taken (_handleTaken i reminders)
     = map (fun r => if (id r =? i)%nat then negb (taken r) else taken r) reminders.
Proof.
  unfold _handleTaken. repeat split.
  - rewrite map_map. rewrite <- (map_id reminders) at 2. apply map_ext.
    intros r. destruct (id r =? i)%nat eqn:E.
    + cbn [toggled id]. rewrite E. apply toggled_twice.
    + now rewrite E.
  - rewrite map_map. apply map_ext. intros r. now destruct (id r =? i)%nat.
  - rewrite map_map. apply map_ext. intros r. now destruct (id r =? i)%nat.
  - rewrite map_map. apply map_ext. intros r. now destruct (id r =? i)%nat.
  - intros r Hin Hne. apply in_map_iff. exists r. split; [|exact Hin].
    now replace (id r =? i)%nat with false by (symmetry; now apply Nat.eqb_neq).
  - rewrite map_map. apply map_ext. intros r. now destruct (id r =? i)%nat.
Qed.

End NamesCleaned.

(** X14, an instance on ASCII names, with the ASCII instances of
    [toLowerCase] and [trim]. *)
Lemma normalizeNames_idempotent_witness :
  (forall s, asciiTrim (asciiTrim s) = asciiTrim s)
  /\ Home.normalizeNames JS.toLowerCase asciiTrim
       (Some (map Home.MedString
                (Home.normalizeNames JS.toLowerCase asciiTrim
                   (Some [Home.MedString " Aspirin"; Home.MedString "ASPIRIN";
                          Home.MedString "Ibuprofen "]))))
     = Home.normalizeNames JS.toLowerCase asciiTrim
         (Some [Home.MedString " Aspirin"; Home.MedString "ASPIRIN";
                Home.MedString "Ibuprofen "])
  /\ Home.medsToUse JS.toLowerCase asciiTrim
       (Some (map Home.MedString
                (Home.normalizeNames JS.toLowerCase asciiTrim
                   (Some [Home.MedString " Aspirin"; Home.MedString "ASPIRIN";
                          Home.MedString "Ibuprofen "]))))
     = Home.normalizeNames JS.toLowerCase asciiTrim
         (Some [Home.MedString " Aspirin"; Home.MedString "ASPIRIN";
                Home.MedString "Ibuprofen "]).
Proof.
  split; [exact asciiTrim_idempotent|].
  apply (normalizeNames_idempotent JS.toLowerCase asciiTrim asciiTrim_idempotent
           (Some [Home.MedString " Aspirin"; Home.MedString "ASPIRIN";
                  Home.MedString "Ibuprofen "])).
Defined.

(** X16, an instance on ASCII names: a hand-typed list and a history
    that spells one of its names otherwise. *)
Lemma handleAddManually_merges_after_witness :
  (forall s, asciiTrim (asciiTrim s) = asciiTrim s)
  /\ map JS.toLowerCase
       (Home._handleAddManually JS.toLowerCase asciiTrim
          (Some [Home.MedString "aspirin"; Home.MedString "Metformin "])
          ["Ibuprofen"; "Aspirin"])
     = (map JS.toLowerCase
          (Home.normalizeNames JS.toLowerCase asciiTrim
             (Some [Home.MedString "aspirin"; Home.MedString "Metformin "]))
        ++ filter
             (absentFrom
                (map JS.toLowerCase
                   (Home.normalizeNames JS.toLowerCase asciiTrim
                      (Some [Home.MedString "aspirin";
                             Home.MedString "Metformin "]))))
             (firstOccurrences
                (map JS.toLowerCase
                   (filter (fun s => negb (String.eqb s ""))
                           (map asciiTrim ["Ibuprofen"; "Aspirin"])))))%list
  /\ Home._handleAddManually JS.toLowerCase asciiTrim
       (Some [Home.MedString "aspirin"; Home.MedString "Metformin "]) []
     = Home.normalizeNames JS.toLowerCase asciiTrim
         (Some [Home.MedString "aspirin"; Home.MedString "Metformin "]).
Proof.
  split; [exact asciiTrim_idempotent|].
  apply (handleAddManually_merges_after JS.toLowerCase asciiTrim
           asciiTrim_idempotent
           (Some [Home.MedString "aspirin"; Home.MedString "Metformin "])
           ["Ibuprofen"; "Aspirin"]).
Defined.

(** A hand-typed name that the history spells otherwise keeps its place
    and takes the history's spelling. *)
Example handleAddManually_example :
  Home._handleAddManually JS.toLowerCase asciiTrim
    (Some [Home.MedString "aspirin"; Home.MedString "Metformin "])
    ["Ibuprofen"; "Aspirin"]
  = ["Aspirin"; "Metformin"; "Ibuprofen"].
Proof. reflexivity. Qed.

(** C7, the claim as it was written fails on the web client: the
    prescription checker posts the selection as it is, one medication
    three times in two spellings here. *)
Example handleCheck_posts_duplicates :
  snd (PrescriptionChecker.handleCheck quietServices
         (withDrugs [Some "Aspirin"; Some "aspirin"; Some "Aspirin"]
                    initialState))
  = [PrescriptionChecker.CheckInteractions ["Aspirin"; "aspirin"; "Aspirin"];
     PrescriptionChecker.ExplainMedicationRisks ["Aspirin"; "aspirin"; "Aspirin"]].
Proof. reflexivity. Qed.

Section SessionFacts.

Import AuthService.

Variable number : Type.
Variable numberTruthy : number -> bool.
Variable numberToString : number -> string.
Variable stringify : ApiService.JSON number -> string.
Variable parse : string -> Outcome (ApiService.JSON number).

Local Abbreviation jsonTruthy := (ApiService.jsonTruthy numberTruthy).
Local Abbreviation jsonToString := (ApiService.jsonToString numberToString).
Local Abbreviation World := (AuthService.World number).
Local Abbreviation setToken := (AuthService.setToken numberTruthy numberToString).
Local Abbreviation getHeaders := (AuthService.getHeaders numberTruthy numberToString).
Local Abbreviation clearUserData :=
  (AuthService.clearUserData numberTruthy numberToString).
Local Abbreviation signIn :=
  (AuthService.signIn numberTruthy numberToString stringify).
Local Abbreviation signOut :=
  (AuthService.signOut numberTruthy numberToString stringify).
Local Abbreviation verifyToken :=
  (AuthService.verifyToken numberTruthy numberToString).
Local Abbreviation autoLogin := (AuthService.autoLogin numberTruthy numberToString).
Local Abbreviation after := (AuthService.after numberTruthy numberToString stringify).
Local Abbreviation afterAll :=
  (AuthService.afterAll numberTruthy numberToString stringify).
Local Abbreviation apiRequest := (ApiService.request numberTruthy numberToString).
Local Abbreviation inSync := (tokenStored numberTruthy numberToString).

Lemma getItem_removeItem_same (key : string) (storage : Storage) :
  getItem key (removeItem key storage) = None.
Proof.
  induction storage as [|[k v] rest IH]; [reflexivity|].
  cbn [removeItem filter fst]. destruct (String.eqb k key) eqn:E; cbn [negb].
  - exact IH.
  - cbn [getItem]. now rewrite E.
Qed.

Lemma getItem_removeItem_other (key other : string) (storage : Storage) :
  other <> key -> getItem other (removeItem key storage) = getItem other storage.
Proof.
  intros Hne. induction storage as [|[k v] rest IH]; [reflexivity|].
  cbn [removeItem filter fst getItem].
  destruct (String.eqb k key) eqn:E; cbn [negb].
  - apply String.eqb_eq in E. subst k.
    replace (String.eqb key other) with false
      by (symmetry; apply String.eqb_neq; congruence).
    exact IH.
  - cbn [getItem]. destruct (String.eqb k other); [reflexivity | exact IH].
Qed.

Lemma getItem_setItem_same (key value : string) (storage : Storage) :
  getItem key (setItem key value storage) = Some value.
Proof. unfold setItem. cbn [getItem]. now rewrite String.eqb_refl. Qed.

Lemma getItem_setItem_other (key other value : string) (storage : Storage) :
  other <> key ->
  getItem other (setItem key value storage) = getItem other storage.
Proof.
  intros Hne. unfold setItem. cbn [getItem].
  replace (String.eqb key other) with false
    by (symmetry; apply String.eqb_neq; congruence).
  now apply getItem_removeItem_other.
Qed.

Lemma setToken_tokenStored (t : ApiService.JSON number) (w : World) :
  inSync (snd (setToken t w)).
Proof.
  unfold tokenStored, AuthService.setToken.
  destruct (jsonTruthy t) eqn:Ht; [destruct (jsonToString t) as [text|e] eqn:Hs|];
    cbn [snd token localStorage]; split.
  - intros text' _ Htext. rewrite Hs in Htext. injection Htext as <-.
    apply getItem_setItem_same.
  - intros; exact Ht.
  - intros text' _ Htext. rewrite Hs in Htext. discriminate.
  - intros; exact Ht.
  - intros text' Htrue. rewrite Ht in Htrue. discriminate.
  - intros s Hs. now rewrite getItem_removeItem_same in Hs.
Qed.

Lemma newApiService_tokenStored (storage : Storage) :
  inSync (newApiService storage).
Proof.
  unfold tokenStored, newApiService. cbn [token localStorage].
  destruct (getItem "auth_token" storage) as [t|]; split.
  - intros text _ [= <-]. reflexivity.
  - intros s [= ->] Hs. cbn. now destruct s.
  - discriminate.
  - discriminate.
Qed.

Lemma clearUserData_signedOut (w : World) : signedOut (clearUserData w).
Proof.
  unfold signedOut, AuthService.clearUserData, AuthService.setToken.
  cbn [snd token localStorage ApiService.jsonTruthy]. split; [reflexivity|split].
  - apply getItem_removeItem_same.
  - rewrite getItem_removeItem_other by discriminate.
    apply getItem_removeItem_same.
Qed.

Lemma clearUserData_sent (w : World) : sent (clearUserData w) = sent w.
Proof. reflexivity. Qed.

Lemma clearUserData_other_keys (w : World) (other : string) :
  other <> "auth_token" -> other <> "user_data" ->
  getItem other (localStorage (clearUserData w)) = getItem other (localStorage w).
Proof.
  intros H1 H2. unfold AuthService.clearUserData, AuthService.setToken.
  cbn [snd token localStorage ApiService.jsonTruthy].
  now rewrite !getItem_removeItem_other.
Qed.

Lemma clearUserData_tokenStored (w : World) : inSync (clearUserData w).
Proof. apply setToken_tokenStored. Qed.

(** A request leaves the token and the storage as they are. *)
Lemma request_tokenStored (method endpoint : string) (body : option string)
    (includeAuth : bool) (fetched : Outcome (ApiService.Response number))
    (w : World) :
  inSync w ->
  inSync (snd (request numberTruthy numberToString method endpoint body
                       includeAuth fetched w)).
Proof.
  intros H. unfold request. now destruct (getHeaders includeAuth w).
Qed.

Lemma getHeaders_without_auth (w : World) :
  getHeaders false w = Returns plainHeaders.
Proof. reflexivity. Qed.

Lemma signIn_tokenStored (email password : string)
    (fetched : Outcome (ApiService.Response number)) (w : World) :
  inSync w -> inSync (snd (signIn email password fetched w)).
Proof.
  intros H. unfold AuthService.signIn, post, request.
  rewrite getHeaders_without_auth.
  set (w1 := {| token := token w; localStorage := localStorage w;
                sent := (sent w ++ _)%list |}).
  assert (H1 : inSync w1) by exact H.
  destruct (apiRequest fetched) as [response|e]; [|exact H1].
  destruct response as [|b|n|s|items|props]; try exact H1.
  set (response := ApiService.JObject props).
  destruct (optProp "access_token" (prop "session" response)) as [tok|];
    [|exact H1].
  destruct (jsonTruthy tok) eqn:Htok; [|exact H1].
  pose proof (setToken_tokenStored tok w1) as H2.
  destruct (setToken tok w1) as [[u|e] w2]; cbn [snd] in *; [|exact H2].
  unfold tokenStored in *. cbn [token localStorage].
  now rewrite getItem_setItem_other by discriminate.
Qed.

Lemma after_tokenStored (call : Call number) (w : World) :
  inSync w -> inSync (after call w).
Proof.
  intros H. destruct call as [t| |u f|e p f|f|f|e f|np rt f|f]; cbn [AuthService.after].
  - apply setToken_tokenStored.
  - apply clearUserData_tokenStored.
  - unfold AuthService.signUp, post.
    pose proof (request_tokenStored "POST" "/api/auth/signup"
                  (Some (stringify u)) false f w H) as Hr.
    now destruct (request _ _ _ _ _ _ _ _).
  - now apply signIn_tokenStored.
  - unfold AuthService.signOut, post.
    destruct (request _ _ _ _ _ _ _ _) as [[r|e] w1];
      apply clearUserData_tokenStored.
  - unfold AuthService.verifyToken, get.
    pose proof (request_tokenStored "GET" "/api/auth/verify" None true f w H)
      as Hr.
    destruct (request _ _ _ _ _ _ _ _) as [[r|e] w1];
      [exact Hr | apply clearUserData_tokenStored].
  - unfold AuthService.resetPassword, post.
    pose proof (request_tokenStored "POST" "/api/auth/reset-password"
                  (Some (stringify (ApiService.JObject
                                      [("email", ApiService.JString e)])))
                  false f w H) as Hr.
    now destruct (request _ _ _ _ _ _ _ _).
  - unfold AuthService.updatePassword, post.
    pose proof (request_tokenStored "POST" "/api/auth/update-password"
                  (Some (stringify (ApiService.JObject
                     [("new_password", ApiService.JString np);
                      ("refresh_token", ApiService.JString rt)])))
                  true f w H) as Hr.
    now destruct (request _ _ _ _ _ _ _ _).
  - unfold AuthService.autoLogin.
    destruct (getItem "auth_token" (localStorage w)) as [t|]; [|exact H].
    destruct (JS.truthy t); [|exact H].
    unfold AuthService.verifyToken, get.
    pose proof (request_tokenStored "GET" "/api/auth/verify" None true f w H)
      as Hr.
    destruct (request _ _ _ _ _ _ _ _) as [[r|e] w1];
      [exact Hr | apply clearUserData_tokenStored].
Qed.

Lemma afterAll_tokenStored (calls : list (Call number)) :
  forall w : World, inSync w -> inSync (afterAll calls w).
Proof.
  induction calls as [|call calls IH]; intros w H; [exact H|].
  cbn [AuthService.afterAll fold_left]. apply IH, after_tokenStored, H.
Qed.

Lemma tokenStored_headers (w : World) (hs : list (string * string)) :
  inSync w ->
  getHeaders true w = Returns hs ->
  match getItem "auth_token" (localStorage w) with
  | None => hs = plainHeaders
  | Some s => hs = bearerHeaders s \/ (s = "" /\ hs = plainHeaders)
  end.
Proof.
  intros [Ha Hb]. unfold AuthService.getHeaders, plainHeaders, bearerHeaders.
  cbn [andb]. destruct (jsonTruthy (token w)) eqn:Ht.
  - destruct (jsonToString (token w)) as [text|e] eqn:Hs; cbn [bind];
      [|discriminate].
    intros [= <-]. rewrite (Ha text eq_refl eq_refl). now left.
  - intros [= <-].
    destruct (getItem "auth_token" (localStorage w)) as [s|]; [|reflexivity].
    right. split; [|reflexivity].
    destruct (string_dec s "") as [Hs|Hs]; [exact Hs|].
    specialize (Hb s eq_refl Hs). discriminate.
Qed.

(** X18. Whatever is in [localStorage] when the page loads and whatever
    calls on the two services follow, with whatever the network answers:
    the headers of a request with [includeAuth], when [getHeaders] gives
    them, carry 'Bearer ' and the stored [auth_token] as Authorization
    header, and no such header when nothing is stored (with a stored
    empty text the header may be missing); a request without
    [includeAuth] never carries one. Unless the stored text is empty, a
    page reload gives the same headers. *)
Theorem headers_carry_the_stored_token (storage : Storage)
    (calls : list (Call number)) (includeAuth : bool) :
  let w := afterAll calls (newApiService storage) in
  (forall hs, getHeaders true w = Returns hs ->
     match getItem "auth_token" (localStorage w) with
     | None => hs = plainHeaders
     | Some s => hs = bearerHeaders s \/ (s = "" /\ hs = plainHeaders)
     end)
  /\ getHeaders false w = Returns plainHeaders
  /\ (forall hs, getHeaders includeAuth w = Returns hs ->
        getItem "auth_token" (localStorage w) <> Some "" ->
        getHeaders includeAuth (newApiService (localStorage w)) = Returns hs).
Proof.
  cbv zeta. set (w := afterAll calls (newApiService storage)).
  assert (H : inSync w)
    by apply afterAll_tokenStored, newApiService_tokenStored.
  split; [intros hs; now apply tokenStored_headers|].
  split; [reflexivity|].
  intros hs Hhs Hne. destruct includeAuth; [|exact Hhs].
  pose proof (tokenStored_headers w hs H Hhs) as Hw.
  unfold AuthService.getHeaders, newApiService. cbn [andb token].
  destruct (getItem "auth_token" (localStorage w)) as [s|].
  - destruct Hw as [-> | [-> _]]; [|now elim Hne].
    destruct s as [|c s]; [now elim Hne | reflexivity].
  - now subst hs.
Qed.

Lemma signedOut_reads (w : World) :
  signedOut w ->
  isAuthenticated numberTruthy parse w = false
  /\ getCurrentUser parse w = ApiService.JNull
  /\ getUserRole numberTruthy parse w = ApiService.JString "patient"
  /\ getHeaders true w = Returns plainHeaders.
Proof.
  intros (Ht & Ha & Hu).
  unfold isAuthenticated, getUserRole, getCurrentUser, AuthService.getHeaders.
  rewrite Ha, Hu, Ht. repeat split.
Qed.

(** X19. [signOut] clears the session whether its request was made and
    accepted or not: afterwards no token is in memory or in
    [localStorage], no user data is stored, [isAuthenticated] is false,
    the role reads 'patient' and requests carry no Authorization header;
    other keys of [localStorage] are untouched. When the headers of the
    session can be built, the one request it makes carries them; it
    resolves to [{success: true}] when that request succeeded and throws
    a plain Error with the request's message (or 'Sign out failed')
    otherwise. When the headers cannot be built (the token has no
    string) no request is made and the Error has the message of that
    failure. *)
Theorem signOut_always_clears (fetched : Outcome (ApiService.Response number))
    (w : World) :
  let result := fst (signOut fetched w) in
  let w' := snd (signOut fetched w) in
  signedOut w'
  /\ isAuthenticated numberTruthy parse w' = false
  /\ getUserRole numberTruthy parse w' = ApiService.JString "patient"
  /\ getHeaders true w' = Returns plainHeaders
  /\ (forall other, other <> "auth_token" -> other <> "user_data" ->
        getItem other (localStorage w') = getItem other (localStorage w))
  /\ match getHeaders true w with
     | Returns hs =>
         sent w'
         = (sent w ++ [ {| method := "POST"; endpoint := "/api/auth/signout";
                           headers := hs;
                           body := Some (stringify (ApiService.JObject [])) |} ])%list
         /\ match apiRequest fetched with
            | Returns _ =>
                result
                = Returns (ApiService.JObject [("success", ApiService.JBool true)])
            | Throws e =>
                result = Throws (newError (if JS.truthy (message e) then message e
                                           else "Sign out failed"))
            end
     | Throws e =>
         sent w' = sent w
         /\ result = Throws (newError (if JS.truthy (message e) then message e
                                       else "Sign out failed"))
     end.
Proof.
  cbv zeta. unfold AuthService.signOut, post, request.
  assert (Hall : forall w1 : World,
            localStorage w1 = localStorage w ->
            signedOut (clearUserData w1)
            /\ isAuthenticated numberTruthy parse (clearUserData w1) = false
            /\ getUserRole numberTruthy parse (clearUserData w1)
               = ApiService.JString "patient"
            /\ getHeaders true (clearUserData w1) = Returns plainHeaders
            /\ (forall other, other <> "auth_token" -> other <> "user_data" ->
                  getItem other (localStorage (clearUserData w1))
                  = getItem other (localStorage w))).
  { intros w1 Hl. pose proof (clearUserData_signedOut w1) as Hout.
    destruct (signedOut_reads _ Hout) as (Hauth & _ & Hrole & Hheaders).
    split; [exact Hout|]. split; [exact Hauth|]. split; [exact Hrole|].
    split; [exact Hheaders|].
    intros other H1 H2. now rewrite clearUserData_other_keys, Hl. }
  destruct (getHeaders true w) as [hs|e].
  - destruct (apiRequest fetched); cbn [fst snd];
      match goal with |- context [clearUserData ?w1] =>
        destruct (Hall w1 eq_refl) as (H1 & H2 & H3 & H4 & H5) end;
      (split; [exact H1|]); (split; [exact H2|]); (split; [exact H3|]);
      (split; [exact H4|]); (split; [exact H5|]); split; reflexivity.
  - cbn [fst snd]. destruct (Hall w eq_refl) as (H1 & H2 & H3 & H4 & H5).
    (split; [exact H1|]); (split; [exact H2|]); (split; [exact H3|]);
      (split; [exact H4|]); (split; [exact H5|]); split; reflexivity.
Qed.

(** X20. [autoLogin] with no stored token (or an empty one) answers
    false without a request and changes nothing. With a stored token it
    makes one GET of /api/auth/verify with the session's headers; it
    answers true when that request succeeded, and then the token and the
    storage are as they were; otherwise it answers false and the session
    is cleared. When the headers cannot be built (the token in memory
    has no string) no request is made, the answer is false and the
    session is cleared. *)
Theorem autoLogin_outcomes (fetched : Outcome (ApiService.Response number))
    (w : World) :
  let loggedIn := fst (autoLogin fetched w) in
  let w' := snd (autoLogin fetched w) in
  match getItem "auth_token" (localStorage w) with
  | None | Some "" => loggedIn = false /\ w' = w
  | Some _ =>
      match getHeaders true w with
      | Returns hs =>
          sent w'
          = (sent w ++ [ {| method := "GET"; endpoint := "/api/auth/verify";
                            headers := hs; body := None |} ])%list
          /\ match apiRequest fetched with
             | Returns _ => loggedIn = true /\ sameSession w w'
             | Throws _ => loggedIn = false /\ signedOut w'
             end
      | Throws _ => sent w' = sent w /\ loggedIn = false /\ signedOut w'
      end
  end.
Proof.
  cbv zeta. unfold AuthService.autoLogin.
  destruct (getItem "auth_token" (localStorage w)) as [t|]; [|now split].
  destruct t as [|c t]; [now split|]. cbn [JS.truthy].
  unfold AuthService.verifyToken, get, request.
  destruct (getHeaders true w) as [hs|e].
  - destruct (apiRequest fetched); cbn [fst snd]; split;
      try reflexivity; split; try reflexivity.
    + split; reflexivity.
    + apply clearUserData_signedOut.
  - cbn [fst snd]. split; [reflexivity|]. split; [reflexivity|].
    apply clearUserData_signedOut.
Qed.

(** X21. [signIn] posts the credentials without an Authorization
    header, whatever session there is. When the request fails or the
    response is [null] it throws a plain Error and the session there was
    stays in place; so does the session when the response has no truthy
    [session.access_token], and the response is returned. With a truthy
    token that has a string, the response is returned and the token is
    in memory, in [localStorage] and in the headers of later requests,
    and the user and profile of the response are stored as [user_data].
    With a truthy token that has no string, [signIn] throws a plain
    Error, the token is in memory and [localStorage] is as it was.
    Whatever it throws has a message. *)
Theorem signIn_outcomes (email password : string)
    (fetched : Outcome (ApiService.Response number)) (w : World) :
  let result := fst (signIn email password fetched w) in
  let w' := snd (signIn email password fetched w) in
  sent w'
  = (sent w ++ [ {| method := "POST"; endpoint := "/api/auth/signin";
                    headers := plainHeaders;
                    body := Some (stringify
                      (ApiService.JObject
                         [("email", ApiService.JString email);
                          ("password", ApiService.JString password)])) |} ])%list
  /\ (forall e, result = Throws e ->
        kind e = PlainError /\ message e <> ""
        /\ localStorage w' = localStorage w)
  /\ match apiRequest fetched with
     | Throws e =>
         result = Throws (newError (if JS.truthy (message e) then message e
                                    else "Sign in failed"))
         /\ sameSession w w'
     | Returns ApiService.JNull =>
         result
         = Throws (newError "Cannot read properties of null (reading 'session')")
         /\ sameSession w w'
     | Returns response =>
         match optProp "access_token" (prop "session" response) with
         | Some access_token =>
             if jsonTruthy access_token then
               match jsonToString access_token with
               | Returns text =>
                   result = Returns response
                   /\ token w' = access_token
                   /\ getItem "auth_token" (localStorage w') = Some text
                   /\ getHeaders true w' = Returns (bearerHeaders text)
                   /\ getItem "user_data" (localStorage w')
                      = Some (stringify
                                (ApiService.JObject
                                   (field "user" (prop "user" response)
                                    ++ field "profile" (prop "profile" response))%list))
               | Throws e =>
                   result = Throws (newError (if JS.truthy (message e)
                                              then message e
                                              else "Sign in failed"))
                   /\ token w' = access_token
                   /\ localStorage w' = localStorage w
               end
             else result = Returns response /\ sameSession w w'
         | None => result = Returns response /\ sameSession w w'
         end
     end.
Proof.
  cbv zeta. unfold AuthService.signIn, post, request.
  rewrite getHeaders_without_auth.
  set (w1 := {| token := token w; localStorage := localStorage w;
                sent := (sent w ++ _)%list |}).
  assert (Hsame : sameSession w w1) by (split; reflexivity).
  assert (Hmsg : forall (e : Exception) (fallback : string), fallback <> "" ->
            message (newError (if JS.truthy (message e) then message e
                               else fallback)) <> "").
  { intros e fallback Hf. cbn [message newError].
    destruct (JS.truthy (message e)) eqn:Hm; [now apply truthy_nonempty | exact Hf]. }
  destruct (apiRequest fetched) as [response|e].
  - destruct response as [|b|n|s|items|props];
      try (cbn [fst snd prop optProp]; split; [reflexivity|];
           split; [discriminate|]; split; [reflexivity | exact Hsame]).
    + cbn [fst snd rethrowWithFallback message JS.truthy].
      split; [reflexivity|]. split.
      * intros e [= <-]. split; [reflexivity|]. split; [discriminate|reflexivity].
      * split; [reflexivity | exact Hsame].
    + set (response := ApiService.JObject props).
      destruct (optProp "access_token" (prop "session" response)) as [tok|];
        [|cbn [fst snd]; split; [reflexivity|]; split; [discriminate|];
          split; [reflexivity | exact Hsame]].
      destruct (jsonTruthy tok) eqn:Ht;
        [|cbn [fst snd]; split; [reflexivity|]; split; [discriminate|];
          split; [reflexivity | exact Hsame]].
      unfold AuthService.setToken. rewrite Ht.
      destruct (jsonToString tok) as [text|e] eqn:Hs; cbn [fst snd].
      * split; [reflexivity|]. split; [discriminate|].
        cbn [token localStorage]. split; [reflexivity|]. split; [reflexivity|].
        split.
        { rewrite getItem_setItem_other by discriminate.
          apply getItem_setItem_same. }
        split.
        { unfold AuthService.getHeaders, bearerHeaders.
          cbn [token andb]. now rewrite Ht, Hs. }
        apply getItem_setItem_same.
      * cbn [rethrowWithFallback token localStorage sent].
        split; [reflexivity|]. split.
        { intros e' [= <-]. split; [reflexivity|].
          split; [apply Hmsg; discriminate | reflexivity]. }
        split; [reflexivity|]. split; reflexivity.
  - cbn [fst snd rethrowWithFallback]. split; [reflexivity|]. split.
    + intros e' [= <-]. split; [reflexivity|].
      split; [apply Hmsg; discriminate | reflexivity].
    + split; [reflexivity | exact Hsame].
Qed.

End SessionFacts.

Section SpecificInteraction.

Import DrugInteractionService.

Lemma percentDecoded_plain (c : ascii) (rest : string) :
  c <> "%"%char ->
  percentDecoded (String c rest) = String c (percentDecoded rest).
Proof.
  intros Hc. destruct c as [[] [] [] [] [] [] [] []];
    try reflexivity. now elim Hc.
Qed.

Lemma hexDigits_value (c : ascii) :
  ascii_of_nat (16 * hexValue (JS.hexDigit (nat_of_ascii c / 16))
                + hexValue (JS.hexDigit (nat_of_ascii c mod 16))) = c.
Proof. destruct c as [[] [] [] [] [] [] [] []]; vm_compute; reflexivity. Qed.

Lemma unreserved_not_percent (c : ascii) :
  JS.unreserved c = true -> c <> "%"%char.
Proof. intros H ->. discriminate. Qed.

Lemma encodeURIComponent_decoded (s : string) :
  percentDecoded (JS.encodeURIComponent s) = s.
Proof.
  induction s as [|c s IH]; [reflexivity|].
  cbn [JS.encodeURIComponent]. destruct (JS.unreserved c) eqn:Hc.
  - rewrite percentDecoded_plain by now apply unreserved_not_percent.
    now rewrite IH.
  - cbv zeta. change (percentDecoded (String "%" (String ?h (String ?l ?r))))
      with (String (ascii_of_nat (16 * hexValue h + hexValue l))
                   (percentDecoded r)).
    now rewrite hexDigits_value, IH.
Qed.

Lemma encodeURIComponent_injective (s t : string) :
  JS.encodeURIComponent s = JS.encodeURIComponent t -> s = t.
Proof.
  intros H. rewrite <- (encodeURIComponent_decoded s), H.
  apply encodeURIComponent_decoded.
Qed.

Lemma includes_char (c d : ascii) (rest : string) :
  JS.includes (String c rest) (String d "")
  = Ascii.eqb c d || JS.includes rest (String d "").
Proof.
  cbn [JS.includes JS.startsWith]. destruct (Ascii.eqb c d); [|reflexivity].
  now destruct rest.
Qed.

Lemma hexDigit_unreserved (c : ascii) :
  JS.unreserved (JS.hexDigit (nat_of_ascii c / 16)) = true
  /\ JS.unreserved (JS.hexDigit (nat_of_ascii c mod 16)) = true.
Proof. destruct c as [[] [] [] [] [] [] [] []]; vm_compute; now split. Qed.

(** A character that is neither unreserved nor [%] is not in an encoded
    text. *)
Lemma encodeURIComponent_free (d : ascii) (s : string) :
  JS.unreserved d = false -> d <> "%"%char ->
  JS.includes (JS.encodeURIComponent s) (String d "") = false.
Proof.
  intros Hd Hp.
  assert (Hne : forall c, JS.unreserved c = true -> Ascii.eqb c d = false).
  { intros c Hc. apply Ascii.eqb_neq. intros ->. congruence. }
  induction s as [|c s IH]; [reflexivity|].
  cbn [JS.encodeURIComponent]. destruct (JS.unreserved c) eqn:Hc.
  - now rewrite includes_char, IH, (Hne c Hc).
  - cbv zeta. destruct (hexDigit_unreserved c) as [H1 H2].
    rewrite !includes_char, IH, (Hne _ H1), (Hne _ H2).
    replace (Ascii.eqb "%" d) with false; [reflexivity|].
    symmetry. apply Ascii.eqb_neq. congruence.
Qed.

Lemma append_split_at (d : ascii) (a a' b b' : string) :
  JS.includes a (String d "") = false ->
  JS.includes a' (String d "") = false ->
  a ++ String d b = a' ++ String d b' -> a = a' /\ b = b'.
Proof.
  revert a'. induction a as [|c a IH]; intros a' Ha Ha' H.
  - destruct a' as [|c' a']; cbn [append] in H.
    + now injection H.
    + injection H as Hc _. subst c'. rewrite includes_char in Ha'.
      now rewrite Ascii.eqb_refl in Ha'.
  - destruct a' as [|c' a']; cbn [append] in H.
    + injection H as Hc _. subst c. rewrite includes_char in Ha.
      now rewrite Ascii.eqb_refl in Ha.
    + injection H as Hc H. subst c'. rewrite includes_char in Ha, Ha'.
      apply orb_false_iff in Ha as [_ Ha]. apply orb_false_iff in Ha' as [_ Ha'].
      destruct (IH a' Ha Ha' H) as [-> ->]. now split.
Qed.

Lemma specificInteractionPath_injective (e1 e2 e1' e2' : string) :
  JS.includes e1 "/" = false -> JS.includes e1' "/" = false ->
  specificInteractionPath e1 e2 = specificInteractionPath e1' e2' ->
  e1 = e1' /\ e2 = e2'.
Proof.
  intros H1 H1' H. unfold specificInteractionPath in H.
  cbn [append] in H. repeat (injection H as H).
  now apply (append_split_at "/" e1 e1' e2 e2').
Qed.

(** X22. [getSpecificInteraction] asks for one endpoint per ordered pair
    of names: two calls ask for the same endpoint only when they have
    the same first and the same second name, whatever characters the
    names contain (a slash in a name cannot shift the segments: an
    encoded name has no [/], [?], [#] or [&]). In particular a pair and
    the same pair the other way round are two different requests unless
    the two names are equal. *)
Theorem getSpecificInteraction_one_endpoint_per_pair
    (drug1 drug2 drug1' drug2' : string) :
  (getSpecificInteractionEndpoint drug1 drug2
   = getSpecificInteractionEndpoint drug1' drug2'
   <-> drug1 = drug1' /\ drug2 = drug2')
  /\ (getSpecificInteractionEndpoint drug1 drug2
      = getSpecificInteractionEndpoint drug2 drug1
      <-> drug1 = drug2)
  /\ JS.includes (JS.encodeURIComponent drug1) "/" = false
  /\ JS.includes (JS.encodeURIComponent drug1) "?" = false
  /\ JS.includes (JS.encodeURIComponent drug1) "#" = false
  /\ JS.includes (JS.encodeURIComponent drug1) "&" = false.
Proof.
  assert (Hinj : forall a b a' b',
             getSpecificInteractionEndpoint a b
             = getSpecificInteractionEndpoint a' b' -> a = a' /\ b = b').
  { intros a b a' b' H. unfold getSpecificInteractionEndpoint in H.
    apply specificInteractionPath_injective in H;
      try (apply encodeURIComponent_free; [reflexivity | discriminate]).
    destruct H as [Ha Hb].
    split; now apply encodeURIComponent_injective. }
  split; [|split].
  - split; [apply Hinj | now intros [-> ->]].
  - split; [|now intros ->]. intros H. now apply Hinj in H.
  - repeat split; apply encodeURIComponent_free; reflexivity || discriminate.
Qed.

(** A name with a slash and a space in it. *)
Example getSpecificInteraction_endpoint_example :
  getSpecificInteractionEndpoint "Co-trimoxazole 80/400" "Warfarin"
  = "/api/interactions/Co-trimoxazole%2080%2F400/Warfarin".
Proof. reflexivity. Qed.

End SpecificInteraction.
